(** * FlameGraph.js: viewport, label fitter and tick planner

    A shallow embedding of [src/js/FlameGraph.js].

    Numbers.  JavaScript numbers are modelled by exact rationals [Q]; rounding,
    infinities and NaN produced by arithmetic are outside the model.  The one
    division the handlers perform, [canvasWidth / selectionWidth], is by zero
    exactly when the selection is empty; [Qdiv] then yields [0], and the only
    use of the quotient is as a divisor again, where JavaScript divides by an
    infinity and also obtains zero.  The two agree as long as the canvas width
    is not zero, which the statements below assume where it matters.

    [null] is kept explicit ([option Q]) wherever the source can store it: the
    view range of an empty data set, the selection edges copied from it and
    the drag origin.  In arithmetic and in [<], [>], [<=], [>=] JavaScript
    converts [null] to [0] ([ToNumber]).

    The state of the widget ([this]) is split in two records: [FlameGraph] for
    the viewport and the interaction controller, and [TextMetrics] for the
    text-width cache and the label fitter.  One widget is modelled: the
    [anchor] object, which lives on [GraphSelectionDragger.prototype] and is
    therefore shared by all widgets of a page, is a field of the dragger.
    [measureText] stands for one font; the DOM, the canvas and the painting
    are not modelled. *)

From Stdlib Require Import QArith Qminmax Qround Lqa ZArith Lia List Ascii String.
From stdpp Require Import gmap strings.

Open Scope Q_scope.

(** ** Constants of the source file *)

Definition GRAPH_WHEEL_ZOOM_SENSITIVITY : Q := 0.00035.
Definition GRAPH_WHEEL_SCROLL_SENSITIVITY : Q := 0.5.
Definition GRAPH_MIN_SELECTION_WIDTH : Q := 10.
Definition TIMELINE_TICKS_MULTIPLE : Z := 5.
Definition TIMELINE_TICKS_SPACING_MIN : Q := 75.

Definition DOM_DELTA_PIXEL : Z := 0.
Definition DOM_DELTA_LINE : Z := 1.
Definition DOM_DELTA_PAGE : Z := 2.

(** ** JavaScript comparisons and coercions on rationals *)

(** [a < b] as a boolean test. *)
Definition Qltb (a b : Q) : bool := negb (Qle_bool b a).

(** [ToNumber]: [null] converts to [0]. *)
Definition ToNumber (v : option Q) : Q :=
  match v with
  | Some q => q
  | None => 0
  end.

(** [a < b] and [a <= b] on possibly-null operands. *)
Definition js_lt (a b : option Q) : bool := Qltb (ToNumber a) (ToNumber b).
Definition js_le (a b : option Q) : bool := Qle_bool (ToNumber a) (ToNumber b).

(** Truthiness of a number: [0] is falsy. *)
Definition truthy (q : Q) : bool := negb (Qeq_bool q 0).

(** [v || d] for a possibly-null number [v]: [null] and [0] are both falsy. *)
Definition or_default (v : option Q) (d : Q) : Q :=
  match v with
  | Some q => if truthy q then q else d
  | None => d
  end.

(** [v === null || test(v)]. *)
Definition null_or (test : Q -> bool) (v : option Q) : bool :=
  match v with
  | None => true
  | Some q => test q
  end.

(** ** Data source *)

Module Block.
Record t := mk { x : Q; y : Q; width : Q; height : Q; text : string }.
End Block.

Module Layer.
Record t := mk { color : string; blocks : list Block.t }.
End Layer.

(** ** Widget state *)

Record GraphSelection := mkSelection {
  start : option Q;
  end_ : option Q;
  maxHeight : Q;
  offsetY : Q
}.

(** [anchor] is itself a [GraphSelection] in the source; only its [start] and
    [end] are ever written or read. *)
Record GraphSelectionDragger := mkDragger {
  originX : option Q;
  originY : option Q;
  originOffsetY : Q;
  anchor_start : option Q;
  anchor_end : option Q
}.

(** [offsetParents] lists [(offsetLeft, offsetTop)] of the canvas' chain of
    offset parents, innermost first; [_viewRange] is [None] until [setData]
    runs ([undefined] in the source). *)
Record FlameGraph := mkGraph {
  _pixelRatio : Q;
  _width : Q;
  _height : Q;
  offsetParents : list (Q * Q);
  _viewRange : option (option Q * option Q);
  _data : option (list Layer.t);
  _selection : GraphSelection;
  _selectionDragger : GraphSelectionDragger;
  _shouldRedraw : bool
}.

Definition with_selection (g : FlameGraph) (s : GraphSelection) : FlameGraph :=
  mkGraph (_pixelRatio g) (_width g) (_height g) (offsetParents g)
          (_viewRange g) (_data g) s (_selectionDragger g) (_shouldRedraw g).

Definition with_dragger (g : FlameGraph) (d : GraphSelectionDragger) : FlameGraph :=
  mkGraph (_pixelRatio g) (_width g) (_height g) (offsetParents g)
          (_viewRange g) (_data g) (_selection g) d (_shouldRedraw g).

Definition with_shouldRedraw (g : FlameGraph) (b : bool) : FlameGraph :=
  mkGraph (_pixelRatio g) (_width g) (_height g) (offsetParents g)
          (_viewRange g) (_data g) (_selection g) (_selectionDragger g) b.

(** A handler either completes or throws a [TypeError] (reading an index of
    [undefined]). *)
Inductive completion (A : Type) : Type :=
| Normal (a : A)
| TypeError.
Arguments Normal {A} a.
Arguments TypeError {A}.

(** ** Events *)

Record MouseEvent := mkMouse { clientX : Q; clientY : Q }.

Record WheelEvent := mkWheel {
  wheel_clientX : Q;
  deltaX : Q;
  deltaY : Q;
  deltaMode : Z
}.

Record KeyEvent := mkKey { code : string; key : string }.

(** ** setData *)

(** One iteration of the inner loop of [setData]. *)
Definition scanBlock (acc : option Q * option Q * option Q) (block : Block.t)
  : option Q * option Q * option Q :=
  let '(minTime, maxTime, maxH) := acc in
  let right := Block.x block + Block.width block in
  let bottom := Block.y block + Block.height block in
  (if null_or (fun m => Qltb (Block.x block) m) minTime
   then Some (Block.x block) else minTime,
   if null_or (fun m => Qltb m right) maxTime then Some right else maxTime,
   if null_or (fun m => Qltb m bottom) maxH then Some bottom else maxH).

Definition scanLayer (acc : option Q * option Q * option Q) (layer : Layer.t)
  : option Q * option Q * option Q :=
  fold_left scanBlock (Layer.blocks layer) acc.

Definition setData (g : FlameGraph) (data : list Layer.t) : FlameGraph :=
  let '(minTime, maxTime, maxH) := fold_left scanLayer data (None, None, None) in
  mkGraph (_pixelRatio g) (_width g) (_height g) (offsetParents g)
          (Some (minTime, maxTime))
          (Some data)
          (mkSelection (Some (or_default minTime 0))
                       (Some (or_default maxTime 1000))
                       (or_default maxH 2000)
                       0)
          (_selectionDragger g)
          true.

Definition getDataWindowStart (g : FlameGraph) : option Q := start (_selection g).
Definition getDataWindowEnd (g : FlameGraph) : option Q := end_ (_selection g).

(** ** Geometry helpers *)

(** [_getContainerOffset]: sums the offsets along the offset-parent chain. *)
Definition _getContainerOffset (g : FlameGraph) : Q * Q :=
  fold_left (fun acc node => (fst acc + fst node, snd acc + snd node))
            (offsetParents g) (0, 0).

(** [selectionScale = canvasWidth / (selection.end - selection.start)]. *)
Definition selectionScale (g : FlameGraph) : Q :=
  let selection := _selection g in
  let selectionWidth := ToNumber (end_ selection) - ToNumber (start selection) in
  _width g / selectionWidth.

(** ** _normalizeSelectionBounds *)

Definition _normalizeSelectionBounds (g : FlameGraph) : FlameGraph :=
  match _viewRange g with
  | None => g
  | Some (lo, hi) =>
      let selection := _selection g in
      let start0 := start selection in
      let end0 := end_ selection in
      let minSelectionWidth := GRAPH_MIN_SELECTION_WIDTH * _pixelRatio g in
      let start1 := if js_lt start0 lo then lo else start0 in
      let end1 := if js_lt hi end0 then hi else end0 in
      with_selection g
        (mkSelection start1 end1 (maxHeight selection) (offsetY selection))
  end.

(** ** Pointer handlers *)

Definition _onMouseDown (g : FlameGraph) (e : MouseEvent) : FlameGraph :=
  let offset := _getContainerOffset g in
  let mouseX := (clientX e - fst offset) * _pixelRatio g in
  let mouseY := (clientY e - snd offset) * _pixelRatio g in
  with_dragger g
    (mkDragger (Some mouseX) (Some mouseY)
               (offsetY (_selection g))
               (start (_selection g))
               (end_ (_selection g))).

Definition _onMouseUp (g : FlameGraph) : FlameGraph :=
  let d := _selectionDragger g in
  with_dragger g
    (mkDragger None None (originOffsetY d) (anchor_start d) (anchor_end d)).

Definition _onMouseMove (g : FlameGraph) (e : MouseEvent) : completion FlameGraph :=
  let offset := _getContainerOffset g in
  let mouseX := (clientX e - fst offset) * _pixelRatio g in
  let mouseY := (clientY e - snd offset) * _pixelRatio g in
  let selection := _selection g in
  let scale := selectionScale g in
  let dragger := _selectionDragger g in
  match originX dragger with
  | None => Normal g
  | Some oX =>
      match _viewRange g with
      | None => TypeError
      | Some (lo, hi) =>
          let moveDeltaX0 := (oX - mouseX) / scale in
          let moveDeltaX1 :=
            if Qle_bool (ToNumber (anchor_start dragger) + moveDeltaX0) (ToNumber lo)
            then ToNumber lo - ToNumber (anchor_start dragger)
            else moveDeltaX0 in
          let moveDeltaX :=
            if Qle_bool (ToNumber hi) (ToNumber (anchor_end dragger) + moveDeltaX1)
            then ToNumber hi - ToNumber (anchor_end dragger)
            else moveDeltaX1 in
          let start1 := ToNumber (anchor_start dragger) + moveDeltaX in
          let end1 := ToNumber (anchor_end dragger) + moveDeltaX in
          let moveDeltaY := ToNumber (originY dragger) - mouseY in
          let offsetY0 := originOffsetY dragger + moveDeltaY in
          let offsetY1 := if Qltb offsetY0 0 then 0 else offsetY0 in
          let offsetY2 :=
            if Qltb (maxHeight selection) offsetY1 then maxHeight selection
            else offsetY1 in
          let g1 := with_selection g
                      (mkSelection (Some start1) (Some end1)
                                   (maxHeight selection) offsetY2) in
          Normal (with_shouldRedraw (_normalizeSelectionBounds g1) true)
      end
  end.


(** ** Wheel and keyboard handlers *)

Definition incrementForMode (mode : Z) : Q :=
  if Z.eqb mode DOM_DELTA_PIXEL then 1
  else if Z.eqb mode DOM_DELTA_LINE then 15
  else if Z.eqb mode DOM_DELTA_PAGE then 400
  else 0.

(** The part of [_onMouseWheel] before normalization: the device-pixel
    position of the pointer and the selection edges after the zoom and pan
    components have been applied. *)
Definition wheelMouseX (g : FlameGraph) (e : WheelEvent) : Q :=
  let offset := _getContainerOffset g in
  (wheel_clientX e - fst offset) * _pixelRatio g.

Definition wheelTarget (g : FlameGraph) (e : WheelEvent) : Q * Q :=
  let mouseX := wheelMouseX g e in
  let canvasWidth := _width g in
  let selection := _selection g in
  let scale := selectionScale g in
  let distFromStart := mouseX in
  let distFromEnd := canvasWidth - mouseX in
  let vectorY :=
    deltaY e * incrementForMode (deltaMode e) * GRAPH_WHEEL_ZOOM_SENSITIVITY / scale in
  let start1 := ToNumber (start selection) - distFromStart * vectorY in
  let end1 := ToNumber (end_ selection) + distFromEnd * vectorY in
  let vectorX :=
    deltaX e * incrementForMode (deltaMode e) * GRAPH_WHEEL_SCROLL_SENSITIVITY / scale in
  (start1 + vectorX, end1 + vectorX).

Definition _onMouseWheel (g : FlameGraph) (e : WheelEvent) : FlameGraph :=
  let selection := _selection g in
  let (start2, end2) := wheelTarget g e in
  let g1 := with_selection g
              (mkSelection (Some start2) (Some end2)
                           (maxHeight selection) (offsetY selection)) in
  with_shouldRedraw (_normalizeSelectionBounds g1) true.

(** The letter a key press stands for: the physical key code first, the typed
    character otherwise. *)
Definition keyOf (e : KeyEvent) : string :=
  if String.eqb (code e) "KeyW" then "w"
  else if String.eqb (code e) "KeyS" then "s"
  else if String.eqb (code e) "KeyA" then "a"
  else if String.eqb (code e) "KeyD" then "d"
  else key e.

Definition syntheticWheel (g : FlameGraph) (dX dY : Q) : WheelEvent :=
  mkWheel (fst (_getContainerOffset g) + _width g / 2) dX dY DOM_DELTA_PIXEL.

Definition _onKeyPress (g : FlameGraph) (e : KeyEvent) : FlameGraph :=
  let k := keyOf e in
  if String.eqb k "w" then _onMouseWheel g (syntheticWheel g 0 (-100))
  else if String.eqb k "s" then _onMouseWheel g (syntheticWheel g 0 100)
  else if String.eqb k "d" then _onMouseWheel g (syntheticWheel g 100 0)
  else if String.eqb k "a" then _onMouseWheel g (syntheticWheel g (-100) 0)
  else g.

(** ** Renderer projection *)

(** [rectLeft] of [_drawBlocksFill]: the device-pixel column of time [x]. *)
Definition rectLeft (g : FlameGraph) (x : Q) : Q :=
  let dataOffset := ToNumber (start (_selection g)) in
  let dataScale := selectionScale g in
  let scaledOffset := dataOffset * dataScale in
  x * _pixelRatio g * dataScale - scaledOffset.

(** The time coordinate (in the units of the selection) shown at device-pixel
    column [p]: the inverse of [rectLeft]. *)
Definition timeAt (g : FlameGraph) (p : Q) : Q :=
  let selection := _selection g in
  ToNumber (start selection)
  + p * (ToNumber (end_ selection) - ToNumber (start selection)) / _width g.

(** ** Invariants of the viewport *)

(** The view range and the selection edges are numbers, with
    [min <= start <= end <= max] and [0 <= offsetY <= maxHeight]. *)
Definition viewport_ok (g : FlameGraph) : bool :=
  match _viewRange g, start (_selection g), end_ (_selection g) with
  | Some (Some lo, Some hi), Some s, Some e =>
      Qle_bool lo s && Qle_bool s e && Qle_bool e hi
      && Qle_bool 0 (offsetY (_selection g))
      && Qle_bool (offsetY (_selection g)) (maxHeight (_selection g))
  | _, _, _ => false
  end.

(** The three bounds [_normalizeSelectionBounds] and the vertical clamp of
    [_onMouseMove] establish: [min <= start], [end <= max] and
    [0 <= offsetY <= maxHeight]. *)
Definition outer_bounds_ok (g : FlameGraph) : bool :=
  match _viewRange g, start (_selection g), end_ (_selection g) with
  | Some (Some lo, Some hi), Some s, Some e =>
      Qle_bool lo s && Qle_bool e hi
      && Qle_bool 0 (offsetY (_selection g))
      && Qle_bool (offsetY (_selection g)) (maxHeight (_selection g))
  | _, _, _ => false
  end.

(** Width of the selection, [end - start]. *)
Definition selectionWidth (g : FlameGraph) : Q :=
  ToNumber (end_ (_selection g)) - ToNumber (start (_selection g)).

(** ** The widget as a transition system *)

(** The state the constructor leaves behind, for a given pixel ratio, canvas
    size and offset-parent chain.  [maxHeight] and [originOffsetY] are
    [undefined] there; no handler reads them before [setData], respectively
    [_onMouseDown], has stored a number. *)
Definition newFlameGraph (pixelRatio w h : Q) (parents : list (Q * Q)) : FlameGraph :=
  mkGraph pixelRatio w h parents None None
          (mkSelection None None 0 0)
          (mkDragger None None 0 None None)
          false.

Inductive event :=
| EvSetData (data : list Layer.t)
| EvMouseDown (e : MouseEvent)
| EvMouseMove (e : MouseEvent)
| EvMouseUp
| EvWheel (e : WheelEvent)
| EvKeyPress (e : KeyEvent).

Definition dispatch (g : FlameGraph) (ev : event) : completion FlameGraph :=
  match ev with
  | EvSetData data => Normal (setData g data)
  | EvMouseDown e => Normal (_onMouseDown g e)
  | EvMouseMove e => _onMouseMove g e
  | EvMouseUp => Normal (_onMouseUp g)
  | EvWheel e => Normal (_onMouseWheel g e)
  | EvKeyPress e => Normal (_onKeyPress g e)
  end.

(** Events are handled one after the other; an exception thrown by a listener
    is reported by the event loop and does not undo or stop anything: the
    state stays as the listener left it, which for [_onMouseMove] is the state
    it was entered with. *)
Fixpoint run (g : FlameGraph) (evs : list event) : FlameGraph :=
  match evs with
  | [] => g
  | ev :: rest =>
      match dispatch g ev with
      | Normal g' => run g' rest
      | TypeError => run g rest
      end
  end.

(** ** Tick planner *)

(** [ToInt32] and the 32-bit left shift of [timingStep <<= 1]. *)
Definition ToInt32 (z : Z) : Z := ((z + 2 ^ 31) mod 2 ^ 32 - 2 ^ 31)%Z.

Definition shl_int32 (z : Z) (n : Z) : Z :=
  ToInt32 (Z.shiftl (ToInt32 z) (Z.land n 31)).

(** The [while (true)] loop of [_findOptimalTickInterval], run for at most
    [fuel] iterations; [None] when the fuel runs out before the loop returns. *)
Fixpoint tickLoop (fuel : nat) (dataScale spacingMin : Q) (timingStep : Z) : option Q :=
  match fuel with
  | O => None
  | S fuel' =>
      let scaledStep := dataScale * inject_Z timingStep in
      if Qltb scaledStep spacingMin
      then tickLoop fuel' dataScale spacingMin (shl_int32 timingStep 1)
      else Some scaledStep
  end.

Definition _findOptimalTickInterval (fuel : nat) (g : FlameGraph) (dataScale : Q)
  : option Q :=
  let timingStep := TIMELINE_TICKS_MULTIPLE in
  let spacingMin := TIMELINE_TICKS_SPACING_MIN * _pixelRatio g in
  if Qltb spacingMin dataScale then Some dataScale
  else if Qeq_bool dataScale 0 then Some 1
  else tickLoop fuel dataScale spacingMin timingStep.

(** ** Text metrics cache and label fitter *)

(** A number that may be NaN.  The only source of NaN here is a function
    object read from the cache's prototype chain and then used as a number. *)
Inductive num :=
| NaN
| Fin (q : Q).

Definition num_lt (a b : num) : bool :=
  match a, b with
  | Fin p, Fin q => Qltb p q
  | _, _ => false
  end.

Definition num_add (a b : num) : num :=
  match a, b with
  | Fin p, Fin q => Fin (p + q)
  | _, _ => NaN
  end.

Definition num_mul (a b : num) : num :=
  match a, b with
  | Fin p, Fin q => Fin (p * q)
  | _, _ => NaN
  end.

Definition num_div (a : num) (d : Q) : num :=
  match a with
  | Fin p => Fin (p / d)
  | NaN => NaN
  end.

Record TextMetrics := mkText {
  _textWidthsCache : gmap string Q;
  _averageCharWidth : num;
  _overflowCharWidth : num;
  overflowChar : string
}.

Definition with_cache (t : TextMetrics) (c : gmap string Q) : TextMetrics :=
  mkText c (_averageCharWidth t) (_overflowCharWidth t) (overflowChar t).

(** [text.length] as a number. *)
Definition length_num (s : string) : num := Fin (inject_Z (Z.of_nat (String.length s))).

(** [String.fromCharCode(i)]. *)
Definition fromCharCode (i : nat) : string := String (Ascii.ascii_of_nat i) EmptyString.

Section LabelFitter.

(** [ctx.measureText(text).width] for the font in use. *)
Variable measureText : string -> Q.

(** Names the cache object, created as [{}], finds on its prototype chain
    ([constructor], [toString], ...); the set depends on the engine.  Such a
    lookup yields a function object, which is truthy. *)
Variable inheritsProperty : string -> bool.

Definition measureAndStore (t : TextMetrics) (text : string) : num * TextMetrics :=
  let w := measureText text in
  (Fin w, with_cache t (<[text := w]> (_textWidthsCache t))).

Definition _getTextWidth (t : TextMetrics) (text : string) : num * TextMetrics :=
  match _textWidthsCache t !! text with
  | Some cachedWidth =>
      if truthy cachedWidth then (Fin cachedWidth, t) else measureAndStore t text
  | None =>
      if inheritsProperty text then (NaN, t) else measureAndStore t text
  end.

Definition _getTextWidthApprox (t : TextMetrics) (text : string) : num :=
  num_mul (length_num text) (_averageCharWidth t).

(** The loop of [_calcAverageCharWidth] over the character codes
    [first, first + count). *)
Fixpoint sumCharWidths (count first : nat) (sum : num) (t : TextMetrics)
  : num * TextMetrics :=
  match count with
  | O => (sum, t)
  | S count' =>
      let (w, t') := _getTextWidth t (fromCharCode first) in
      sumCharWidths count' (S first) (num_add sum w) t'
  end.

Definition _calcAverageCharWidth (t : TextMetrics) : num * TextMetrics :=
  let first := 32%nat in
  let last := 123%nat in
  let (letterWidthsSum, t') := sumCharWidths (last - first) first (Fin 0) t in
  (num_div letterWidthsSum (inject_Z (Z.of_nat (last - first))), t').

(** The [for] loop of [_getFittedText] from index [i] on, with [todo]
    iterations left ([todo = len - i + 1]). *)
Fixpoint trimLoop (t : TextMetrics) (text : string) (maxWidth : Q)
         (len todo i : nat) : string :=
  match todo with
  | O => ""
  | S todo' =>
      let trimmedText := String.substring 0 (len - i) text in
      let trimmedWidth :=
        num_add (_getTextWidthApprox t trimmedText) (_overflowCharWidth t) in
      if num_lt trimmedWidth (Fin maxWidth)
      then trimmedText +:+ overflowChar t
      else trimLoop t text maxWidth len todo' (S i)
  end.

Definition _getFittedText (t : TextMetrics) (text : string) (maxWidth : Q)
  : string * TextMetrics :=
  let (textWidth, t') := _getTextWidth t text in
  if num_lt textWidth (Fin maxWidth) then (text, t')
  else if num_lt (Fin maxWidth) (_overflowCharWidth t') then ("", t')
  else
    let len := String.length text in
    (trimLoop t' text maxWidth len len 1, t').

(** The part of the constructor that fills in the text metrics. *)
Definition newTextMetrics (overflow : string) : TextMetrics :=
  let t0 := mkText ∅ NaN NaN overflow in
  let (avg, t1) := _calcAverageCharWidth t0 in
  let t2 := mkText (_textWidthsCache t1) avg (_overflowCharWidth t1) overflow in
  let (ow, t3) := _getTextWidth t2 overflow in
  mkText (_textWidthsCache t3) (_averageCharWidth t3) ow overflow.

(** Every cached width is the measured width of its key. *)
Definition cache_consistent (t : TextMetrics) : Prop :=
  forall s w, _textWidthsCache t !! s = Some w -> w = measureText s.

End LabelFitter.

(** ** Renderer *)

Definition OVERVIEW_HEADER_HEIGHT : Q := 18.
Definition OVERVIEW_HEADER_SAFE_BOUNDS : Q := 50.
Definition OVERVIEW_HEADER_TEXT_COLOR : string := "#18191a".
Definition OVERVIEW_HEADER_TEXT_FONT_SIZE : Q := 9.
Definition OVERVIEW_HEADER_TEXT_FONT_FAMILY : string := "sans-serif".
Definition OVERVIEW_HEADER_TEXT_PADDING_LEFT : Q := 6.
Definition OVERVIEW_HEADER_TEXT_PADDING_TOP : Q := 5.
Definition OVERVIEW_TIMELINE_STROKES : string := "#ddd".
Definition FLAME_GRAPH_BLOCK_BORDER : Q := 1.
Definition FLAME_GRAPH_BLOCK_TEXT_COLOR : string := "#000".
Definition FLAME_GRAPH_BLOCK_TEXT_FONT_SIZE : Q := 9.
Definition FLAME_GRAPH_BLOCK_TEXT_FONT_FAMILY : string := "sans-serif".
Definition FLAME_GRAPH_BLOCK_TEXT_PADDING_TOP : Q := 1.
Definition FLAME_GRAPH_BLOCK_TEXT_PADDING_LEFT : Q := 3.
Definition FLAME_GRAPH_BLOCK_TEXT_PADDING_RIGHT : Q := 3.

(** The rendering options of the prototype, which subclasses override. *)
Record Options := mkOptions {
  overviewHeaderTextColor : string;
  overviewTimelineStrokes : string;
  blockTextColor : string;
  timelineTickUnits : string
}.

Definition defaultOptions : Options :=
  mkOptions OVERVIEW_HEADER_TEXT_COLOR OVERVIEW_TIMELINE_STROKES
            FLAME_GRAPH_BLOCK_TEXT_COLOR "".

(** The text handed to [fillText]: a block label, or the tick label
    [time + " " + units], kept as its two parts.  [time] is [None] when
    [Math.round] is applied to a quotient by zero, which is not a finite
    number. *)
Inductive label :=
| BlockLabel (text : string)
| TickLabel (time : option Z) (units : string).

(** What a frame does to the outside world, in order: the calls on the 2D
    context (a font is kept as its size in pixels and its family) and the
    notification of the histogram. *)
Inductive command :=
| SetFillStyle (color : string)
| SetStrokeStyle (color : string)
| SetTextBaseline (baseline : string)
| SetFont (px : Q) (family : string)
| ClearRect (x y w h : Q)
| FillRect (x y w h : Q)
| BeginPath
| Rect (x y w h : Q)
| Fill
| Stroke
| MoveTo (x y : Q)
| LineTo (x y : Q)
| FillText (text : label) (x y : Q)
| HighlightTimeRange (from to : option Q).

(** One iteration of the loop of [_drawBlocksFill]: the path built so far and
    the store of visible blocks, extended by one block or left alone. *)
Definition fillBlock (g : FlameGraph) (dataOffset dataScale : Q)
           (minVisibleBlockWidth : num)
           (acc : list command * list Block.t) (block : Block.t)
  : list command * list Block.t :=
  let canvasWidth := _width g in
  let canvasHeight := _height g in
  let scaledOffset := dataOffset * dataScale in
  let rectLeft := Block.x block * _pixelRatio g * dataScale - scaledOffset in
  let rectTop :=
    (Block.y block + OVERVIEW_HEADER_HEIGHT - offsetY (_selection g)) * _pixelRatio g in
  let rectWidth := Block.width block * _pixelRatio g * dataScale in
  let rectHeight := Block.height block * _pixelRatio g in
  if Qltb canvasWidth rectLeft || Qltb rectLeft (- rectWidth) || Qltb canvasHeight rectTop
  then acc
  else
    let rectWidth1 := if Qltb rectLeft 0 then rectWidth + rectLeft else rectWidth in
    let rectLeft1 := if Qltb rectLeft 0 then 0 else rectLeft in
    if Qle_bool rectWidth1 FLAME_GRAPH_BLOCK_BORDER
       || Qle_bool rectHeight FLAME_GRAPH_BLOCK_BORDER
    then acc
    else
      (fst acc ++ [Rect rectLeft1 rectTop
                        (rectWidth1 - FLAME_GRAPH_BLOCK_BORDER)
                        (rectHeight - FLAME_GRAPH_BLOCK_BORDER)],
       if num_lt minVisibleBlockWidth (Fin rectWidth1)
       then snd acc ++ [block] else snd acc).

Definition _drawBlocksFill (g : FlameGraph) (color : string) (blocks : list Block.t)
           (dataOffset dataScale : Q) (visibleBlocksStore : list Block.t)
           (minVisibleBlockWidth : num)
  : list command * list Block.t :=
  let (path, store) :=
    fold_left (fillBlock g dataOffset dataScale minVisibleBlockWidth)
              blocks ([], visibleBlocksStore) in
  ([SetFillStyle color; BeginPath] ++ path ++ [Fill], store).

Definition _drawPyramidFill (g : FlameGraph) (t : TextMetrics)
           (dataSource : list Layer.t) (dataOffset dataScale : Q)
  : list command * list Block.t :=
  let minVisibleBlockWidth := _overflowCharWidth t in
  fold_left
    (fun acc layer =>
       let (cmds, store) :=
         _drawBlocksFill g (Layer.color layer) (Layer.blocks layer)
                         dataOffset dataScale (snd acc) minVisibleBlockWidth in
       (fst acc ++ cmds, store))
    dataSource ([], []).

(** [Math.round]: the nearest integer, halves rounded up. *)
Definition Math_round (q : Q) : Z := Qfloor (q + 0.5).

(** The tick marks of [_drawTicks] from position [x] on: a label and a
    vertical line every [tickInterval] pixels while [x] is below [limit].
    [None] when [fuel] iterations do not reach the limit. *)
Fixpoint tickMarks (fuel : nat) (o : Options) (g : FlameGraph)
         (scaledOffset dataScale tickInterval limit x : Q) : option (list command) :=
  match fuel with
  | O => None
  | S fuel' =>
      if Qltb x limit then
        let lineLeft := x - scaledOffset in
        let textLeft := lineLeft + OVERVIEW_HEADER_TEXT_PADDING_LEFT * _pixelRatio g in
        let time :=
          if Qeq_bool dataScale 0 || Qeq_bool (_pixelRatio g) 0 then None
          else Some (Math_round (x / dataScale / _pixelRatio g)) in
        match tickMarks fuel' o g scaledOffset dataScale tickInterval limit
                        (x + tickInterval) with
        | Some rest =>
            Some ([FillText (TickLabel time (timelineTickUnits o)) textLeft
                            (OVERVIEW_HEADER_TEXT_PADDING_TOP * _pixelRatio g);
                   MoveTo lineLeft 0;
                   LineTo lineLeft (_height g)] ++ rest)
        | None => None
        end
      else Some []
  end.

(** [_drawTicks]; [None] when the planner or the loop over the ticks does not
    return within [fuel] iterations. *)
Definition _drawTicks (fuel : nat) (o : Options) (g : FlameGraph)
           (dataOffset dataScale : Q) : option (list command) :=
  let canvasWidth := _width g in
  let scaledOffset := dataOffset * dataScale in
  let safeBounds := OVERVIEW_HEADER_SAFE_BOUNDS * _pixelRatio g in
  let availableWidth := canvasWidth - safeBounds in
  let fontSize := OVERVIEW_HEADER_TEXT_FONT_SIZE * _pixelRatio g in
  match _findOptimalTickInterval fuel g dataScale with
  | None => None
  | Some tickInterval =>
      match tickMarks fuel o g scaledOffset dataScale tickInterval
                      (availableWidth + scaledOffset) scaledOffset with
      | None => None
      | Some marks =>
          Some ([SetFillStyle "white";
                 FillRect 0 0 canvasWidth OVERVIEW_HEADER_HEIGHT;
                 SetTextBaseline "top";
                 SetFont fontSize OVERVIEW_HEADER_TEXT_FONT_FAMILY;
                 SetFillStyle (overviewHeaderTextColor o);
                 SetStrokeStyle (overviewTimelineStrokes o);
                 BeginPath]
                  ++ marks ++ [Stroke])
      end
  end.

Section Renderer.

Variable measureText : string -> Q.
Variable inheritsProperty : string -> bool.

Definition _drawBlockText (g : FlameGraph) (t : TextMetrics) (block : Block.t)
           (dataOffset dataScale : Q) : list command * TextMetrics :=
  let scaledOffset := dataOffset * dataScale in
  let paddingTop :=
    (FLAME_GRAPH_BLOCK_TEXT_PADDING_TOP - offsetY (_selection g)) * _pixelRatio g in
  let paddingLeft := FLAME_GRAPH_BLOCK_TEXT_PADDING_LEFT * _pixelRatio g in
  let paddingRight := FLAME_GRAPH_BLOCK_TEXT_PADDING_RIGHT * _pixelRatio g in
  let totalHorizontalPadding := paddingLeft + paddingRight in
  let rectLeft := Block.x block * _pixelRatio g * dataScale - scaledOffset in
  let rectWidth := Block.width block * _pixelRatio g * dataScale in
  let rectWidth1 := if Qltb rectLeft 0 then rectWidth + rectLeft else rectWidth in
  let rectLeft1 := if Qltb rectLeft 0 then 0 else rectLeft in
  let textLeft := rectLeft1 + paddingLeft in
  let textTop :=
    (Block.y block + Block.height block / 2 + OVERVIEW_HEADER_HEIGHT) * _pixelRatio g
    + paddingTop in
  let textAvailableWidth := rectWidth1 - totalHorizontalPadding in
  let (fittedText, t') :=
    _getFittedText measureText inheritsProperty t (Block.text block) textAvailableWidth in
  if Nat.ltb (String.length fittedText) 1 then ([], t')
  else ([FillText (BlockLabel fittedText) textLeft textTop], t').

Definition _drawPyramidText (g : FlameGraph) (t : TextMetrics) (blocks : list Block.t)
           (dataOffset dataScale : Q) : list command * TextMetrics :=
  fold_left
    (fun acc block =>
       let (cmds, t') := _drawBlockText g (snd acc) block dataOffset dataScale in
       (fst acc ++ cmds, t'))
    blocks ([], t).

Definition _drawPyramid (o : Options) (g : FlameGraph) (t : TextMetrics)
           (dataSource : list Layer.t) (dataOffset dataScale : Q)
  : list command * TextMetrics :=
  let fontSize := FLAME_GRAPH_BLOCK_TEXT_FONT_SIZE * _pixelRatio g in
  let (fill, visibleBlocks) := _drawPyramidFill g t dataSource dataOffset dataScale in
  let (texts, t') := _drawPyramidText g t visibleBlocks dataOffset dataScale in
  (fill
     ++ [SetTextBaseline "middle";
         SetFont fontSize FLAME_GRAPH_BLOCK_TEXT_FONT_FAMILY;
         SetFillStyle (blockTextColor o)]
     ++ texts,
   t').

End Renderer.

(** ** Frames *)

(** How a frame ends in the model: it returns; or the tick planner or the
    tick loop does not return (the fuel ran out); or the selection is empty,
    so that [canvasWidth / selectionWidth] is an infinity or NaN and the
    drawing that follows is outside the rationals. *)
Inductive outcome (A : Type) : Type :=
| Returns (a : A)
| NoReturn
| NotFinite.
Arguments Returns {A} a.
Arguments NoReturn {A}.
Arguments NotFinite {A}.

(** The widget with the parts a frame touches besides the viewport: the text
    metrics, the rendering options, the size overrides and the [width] and
    [height] attributes of the canvas element. *)
Record Widget := mkWidget {
  graph : FlameGraph;
  metrics : TextMetrics;
  options : Options;
  fixedWidth : option Q;
  fixedHeight : option Q;
  canvas_width : Q;
  canvas_height : Q
}.

Definition with_size (g : FlameGraph) (w h : Q) : FlameGraph :=
  mkGraph (_pixelRatio g) w h (offsetParents g)
          (_viewRange g) (_data g) (_selection g) (_selectionDragger g)
          (_shouldRedraw g).

Definition isNull {A : Type} (v : option A) : bool :=
  match v with
  | None => true
  | Some _ => false
  end.

Section Frame.

Variable measureText : string -> Q.
Variable inheritsProperty : string -> bool.

(** What the [width] or [height] attribute of the canvas reads after a number
    has been assigned to it (the element stores an integer). *)
Variable reflectSize : Q -> Q.

(** [_drawWidget], for the layout box [bounds] of the container. *)
Definition _drawWidget (fuel : nat) (w : Widget) (bounds : Q * Q)
  : outcome (Widget * list command) :=
  let g1 := _normalizeSelectionBounds (graph w) in
  let boundsWidth := or_default (fixedWidth w) (fst bounds) in
  let boundsHeight := or_default (fixedHeight w) (snd bounds) in
  let g2 := with_size g1 (boundsWidth * _pixelRatio g1) (boundsHeight * _pixelRatio g1) in
  let widthChanged := negb (Qeq_bool (_width g2) (canvas_width w)) in
  let heightChanged := negb (Qeq_bool (_height g2) (canvas_height w)) in
  let canvasW := if widthChanged then reflectSize (_width g2) else canvas_width w in
  let canvasH := if heightChanged then reflectSize (_height g2) else canvas_height w in
  let g3 := if widthChanged || heightChanged then with_shouldRedraw g2 true else g2 in
  match _data g3 with
  | None =>
      Returns (mkWidget g3 (metrics w) (options w) (fixedWidth w) (fixedHeight w)
                        canvasW canvasH, [])
  | Some data =>
      if negb (_shouldRedraw g3) then
        Returns (mkWidget g3 (metrics w) (options w) (fixedWidth w) (fixedHeight w)
                          canvasW canvasH, [])
      else
        let selection := _selection g3 in
        let selectionWidth := ToNumber (end_ selection) - ToNumber (start selection) in
        if Qeq_bool selectionWidth 0 then NotFinite
        else
          let selectionScale := _width g3 / selectionWidth in
          let (pyramid, t') :=
            _drawPyramid measureText inheritsProperty (options w) g3 (metrics w) data
                         (ToNumber (start selection)) selectionScale in
          match _drawTicks fuel (options w) g3
                           (ToNumber (start selection)) selectionScale with
          | None => NoReturn
          | Some ticks =>
              Returns (mkWidget (with_shouldRedraw g3 false) t' (options w)
                                (fixedWidth w) (fixedHeight w) canvasW canvasH,
                       [HighlightTimeRange (start selection) (end_ selection);
                        ClearRect 0 0 (_width g3) (_height g3)]
                         ++ pyramid ++ ticks)
          end
  end.

End Frame.

(** ** Helpers for statements about [setData] *)

(** All the blocks of a data source, in the order [setData] visits them. *)
Definition allBlocks (data : list Layer.t) : list Block.t :=
  concat (map Layer.blocks data).

(** [v] is bounded below, respectively above, by the number [m] holds. *)
Definition lower (m : option Q) (v : Q) : Prop :=
  match m with
  | Some q => q <= v
  | None => False
  end.

Definition upper (m : option Q) (v : Q) : Prop :=
  match m with
  | Some q => v <= q
  | None => False
  end.

(** ** Helpers for statements about [_drawTicks] *)

(** [n] positions starting at [x], [step] apart, each obtained from the one
    before by one addition, as the loop of [_drawTicks] computes them. *)
Fixpoint progression (n : nat) (x step : Q) : list Q :=
  match n with
  | O => []
  | S n' => x :: progression n' (x + step) step
  end.



(** ** Helpers for statements about the label fitter *)

(** The test of the trimming loop for a prefix of [k] characters: its
    approximate width plus the marker's width is below [maxWidth]. *)
Definition fitsApprox (t : TextMetrics) (maxWidth : Q) (k : nat) : bool :=
  num_lt (num_add (num_mul (Fin (inject_Z (Z.of_nat k))) (_averageCharWidth t))
                  (_overflowCharWidth t))
         (Fin maxWidth).

(** The sum of the measured widths of the characters with codes
    [first, first + count), added to [s0] in that order. *)
Definition sumMeasured (measureText : string -> Q) (first count : nat) (s0 : Q) : Q :=
  fold_left (fun acc i => acc + measureText (fromCharCode i)) (seq first count) s0.

(** ** Helpers for statements about the renderer *)

Definition is_rect (c : command) : bool :=
  match c with
  | Rect _ _ _ _ => true
  | _ => false
  end.

(** A rectangle of the fill path starts on the canvas, horizontally, not
    below its bottom edge, and has a positive width and height. *)
Definition rect_on_canvas (g : FlameGraph) (c : command) : Prop :=
  match c with
  | Rect x y w h => 0 <= x /\ x <= _width g /\ y <= _height g /\ 0 < w /\ 0 < h
  | _ => True
  end.

(** A block that ends before the selection starts or starts after it ends,
    in the renderer's units (block times are multiplied by the pixel ratio). *)
Definition outside_selection (g : FlameGraph) (b : Block.t) : Prop :=
  (Block.x b + Block.width b) * _pixelRatio g < ToNumber (start (_selection g))
  \/ ToNumber (end_ (_selection g)) < Block.x b * _pixelRatio g.

(** ** Concrete inputs used in examples *)

(** The data set of the spec's scenario: one layer, one block
    [{x:0, y:0, width:100, height:20, text:"abc"}]. *)
Definition oneBlock : list Layer.t :=
  [Layer.mk "#f00" [Block.mk 0 0 100 20 "abc"]].

(** A 100-pixel-wide canvas at pixel ratio 1 with no offset parents, showing
    [oneBlock]: extent and selection are both [[0, 100]]. *)
Definition graph100 : FlameGraph := setData (newFlameGraph 1 100 50 []) oneBlock.

(** The same canvas showing a single block 10 time units long: extent and
    selection are both [[0, 10]]. *)
Definition tenBlock : list Layer.t :=
  [Layer.mk "#f00" [Block.mk 0 0 10 20 "abc"]].

Definition graph10 : FlameGraph := setData (newFlameGraph 1 100 50 []) tenBlock.

Definition keyW : KeyEvent := mkKey "KeyW" "w".
Definition keyA : KeyEvent := mkKey "KeyA" "a".

(** A fixed-pitch font, 6 pixels per character. *)
Definition fixedPitch (s : string) : Q := 6 * inject_Z (Z.of_nat (String.length s)).

(** A proportional font: [W] is 10 pixels wide, every other character 5. *)
Definition charWidth (c : Ascii.ascii) : Q :=
  if Ascii.eqb c "W"%char then 10 else 5.

Fixpoint proportional (s : string) : Q :=
  match s with
  | EmptyString => 0
  | String c rest => charWidth c + proportional rest
  end.

(** Names every engine finds on [Object.prototype]. *)
Definition objectPrototype (s : string) : bool :=
  existsb (String.eqb s)
    ["constructor"; "hasOwnProperty"; "isPrototypeOf"; "propertyIsEnumerable";
     "toLocaleString"; "toString"; "valueOf"; "__proto__"]%string.

(** The text metrics the constructor computes for the two fonts, with the
    default overflow marker. *)
Definition fixedPitchMetrics : TextMetrics :=
  newTextMetrics fixedPitch objectPrototype "...".

Definition proportionalMetrics : TextMetrics :=
  newTextMetrics proportional objectPrototype "...".


(** ** Helpers for statements about frames *)

(** Normalization has nothing to change. *)
Definition normalized (g : FlameGraph) : Prop :=
  match _viewRange g with
  | None => True
  | Some (lo, hi) =>
      js_lt (start (_selection g)) lo = false
      /\ js_lt hi (end_ (_selection g)) = false
  end.

(** The device-pixel width and height a frame computes from the layout box
    [bounds] of the container. *)
Definition frameWidth (w : Widget) (bounds : Q * Q) : Q :=
  or_default (fixedWidth w) (fst bounds) * _pixelRatio (graph w).

Definition frameHeight (w : Widget) (bounds : Q * Q) : Q :=
  or_default (fixedHeight w) (snd bounds) * _pixelRatio (graph w).

(** A widget showing [oneBlock] in the fixed-pitch font, in a container 100
    by 50 pixels, before its first frame; the canvas stores sizes as they
    are. *)
Definition widget100 : Widget :=
  mkWidget graph100 fixedPitchMetrics defaultOptions None None 100 50.

(** * Properties *)

(** ** Comparisons *)

Lemma Qltb_spec (a b : Q) : reflect (a < b) (Qltb a b).
Proof.
  unfold Qltb. destruct (Qle_bool b a) eqn:E; simpl; constructor.
  - apply Qle_bool_iff in E. lra.
  - destruct (Qlt_le_dec a b) as [H | H]; [exact H |].
    apply Qle_bool_iff in H. congruence.
Qed.

Lemma Qle_bool_spec (a b : Q) : reflect (a <= b) (Qle_bool a b).
Proof.
  destruct (Qle_bool a b) eqn:E; constructor.
  - now apply Qle_bool_iff.
  - intros H. apply Qle_bool_iff in H. congruence.
Qed.

Lemma Qle_bool_true (a b : Q) : a <= b -> Qle_bool a b = true.
Proof. apply Qle_bool_iff. Qed.

Lemma Qltb_false (a b : Q) : b <= a -> Qltb a b = false.
Proof. intros H. destruct (Qltb_spec a b); [lra | reflexivity]. Qed.

Lemma Qltb_true (a b : Q) : a < b -> Qltb a b = true.
Proof. intros H. destruct (Qltb_spec a b); [reflexivity | lra]. Qed.

(** Case analysis on every comparison of the goal, nested ones included. *)
Ltac split_tests :=
  repeat match goal with
         | H : context [Qltb _ _] |- _ => revert H
         | H : context [Qle_bool _ _] |- _ => revert H
         | |- context [Qltb ?a ?b] => destruct (Qltb_spec a b)
         | |- context [Qle_bool ?a ?b] => destruct (Qle_bool_spec a b)
         end;
  intros.

Lemma viewport_ok_spec (g : FlameGraph) :
  viewport_ok g = true <->
  exists lo hi s e,
    _viewRange g = Some (Some lo, Some hi)
    /\ start (_selection g) = Some s /\ end_ (_selection g) = Some e
    /\ lo <= s /\ s <= e /\ e <= hi
    /\ 0 <= offsetY (_selection g)
    /\ offsetY (_selection g) <= maxHeight (_selection g).
Proof.
  unfold viewport_ok. split.
  - destruct (_viewRange g) as [[[lo|] [hi|]]|]; try discriminate.
    destruct (start (_selection g)) as [s|]; try discriminate.
    destruct (end_ (_selection g)) as [e|]; try discriminate.
    rewrite !andb_true_iff, !Qle_bool_iff. intros [[[[? ?] ?] ?] ?].
    exists lo, hi, s, e. repeat split; assumption.
  - intros (lo & hi & s & e & -> & -> & -> & ? & ? & ? & ? & ?).
    rewrite !andb_true_iff, !Qle_bool_iff. repeat split; assumption.
Qed.



(** ** setData *)

(** C9. [setData([])] completes and leaves exactly the default selection:
    start 0, end 1000, maxHeight 2000, offsetY 0, with the dirty flag set. *)
Theorem setData_empty (g : FlameGraph) :
  dispatch g (EvSetData []) = Normal (setData g [])
  /\ _selection (setData g []) = mkSelection (Some 0) (Some 1000) 2000 0
  /\ _shouldRedraw (setData g []) = true.
Proof. repeat split. Qed.

(** The view range of the empty data set is [[null, null]], not the default
    selection: the first normalization that follows replaces [end] by [null],
    since [1000 > null]. *)
Lemma setData_empty_then_normalize (g : FlameGraph) :
  _viewRange (setData g []) = Some (None, None)
  /\ _selection (_normalizeSelectionBounds (setData g []))
     = mkSelection (Some 0) None 2000 0.
Proof. split; reflexivity. Qed.

(** [setData] on the scenario's single block selects [[0, 100]]. *)
Lemma setData_oneBlock (g : FlameGraph) :
  _viewRange (setData g oneBlock) = Some (Some 0, Some (0 + 100))
  /\ start (_selection (setData g oneBlock)) = Some 0
  /\ end_ (_selection (setData g oneBlock)) = Some (0 + 100).
Proof. repeat split. Qed.

(** [maxTime || 1000] also replaces a maximum of 0: for a block that ends at
    time 0 the selection ends at 1000, outside the view range [[-100, 0]]. *)
Example setData_zero_maxTime (g : FlameGraph) :
  let g' := setData g [Layer.mk "#f00" [Block.mk (-100) 0 100 20 "abc"]] in
  _viewRange g' = Some (Some (-100), Some (-100 + 100))
  /\ end_ (_selection g') = Some 1000
  /\ outer_bounds_ok g' = false.
Proof. repeat split. Qed.

(** ** Pointer move *)


(** C10. A mouse move while no drag is in progress ([originX] is null or
    undefined) completes and leaves the whole widget state, in particular the
    selection edges, [offsetY] and the dirty flag, as it was. *)
Theorem mouseMove_idle_noop (g : FlameGraph) (e : MouseEvent) :
  originX (_selectionDragger g) = None ->
  _onMouseMove g e = Normal g.
Proof. intros H. unfold _onMouseMove. rewrite H. reflexivity. Qed.

Lemma mouseMove_idle_noop_witness :
  originX (_selectionDragger (_onMouseUp (_onMouseDown graph100 (mkMouse 30 10)))) = None
  /\ _onMouseMove (_onMouseUp (_onMouseDown graph100 (mkMouse 30 10))) (mkMouse 70 20)
     = Normal (_onMouseUp (_onMouseDown graph100 (mkMouse 30 10))).
Proof.
  split; [reflexivity |].
  apply (mouseMove_idle_noop
           (_onMouseUp (_onMouseDown graph100 (mkMouse 30 10))) (mkMouse 70 20)).
  reflexivity.
Defined.

(** The idle states: the one the constructor builds and every state left by
    [_onMouseUp]; [setData], the wheel and the keyboard keep a state idle. *)
Lemma idle_after_construction pr w h ps :
  originX (_selectionDragger (newFlameGraph pr w h ps)) = None.
Proof. reflexivity. Qed.

Lemma idle_after_mouseUp (g : FlameGraph) :
  originX (_selectionDragger (_onMouseUp g)) = None.
Proof. reflexivity. Qed.

Lemma normalize_dragger (g : FlameGraph) :
  _selectionDragger (_normalizeSelectionBounds g) = _selectionDragger g.
Proof.
  unfold _normalizeSelectionBounds.
  destruct (_viewRange g) as [[lo hi]|]; reflexivity.
Qed.

Lemma wheel_dragger (g : FlameGraph) (e : WheelEvent) :
  _selectionDragger (_onMouseWheel g e) = _selectionDragger g.
Proof.
  unfold _onMouseWheel. destruct (wheelTarget g e) as [s2 e2].
  unfold with_shouldRedraw; simpl. now rewrite normalize_dragger.
Qed.

Lemma keyPress_dragger (g : FlameGraph) (e : KeyEvent) :
  _selectionDragger (_onKeyPress g e) = _selectionDragger g.
Proof.
  unfold _onKeyPress.
  repeat match goal with |- context [if ?b then _ else _] => destruct b end;
    auto using wheel_dragger.
Qed.

(** Before [setData] has run, a move during a drag throws. *)
Lemma mouseMove_before_setData_throws pr w h ps e1 e2 :
  _onMouseMove (_onMouseDown (newFlameGraph pr w h ps) e1) e2 = TypeError.
Proof. reflexivity. Qed.

(** ** Normalization *)

(** Whatever the selection, normalization leaves [min <= start] and
    [end <= max]; it has no effect on the other fields. *)
Lemma normalize_outer (g : FlameGraph) (lo hi s e : Q) :
  _viewRange g = Some (Some lo, Some hi) ->
  start (_selection g) = Some s ->
  end_ (_selection g) = Some e ->
  exists s' e',
    start (_selection (_normalizeSelectionBounds g)) = Some s'
    /\ end_ (_selection (_normalizeSelectionBounds g)) = Some e'
    /\ lo <= s' /\ e' <= hi
    /\ (lo <= s -> s' = s) /\ (e <= hi -> e' = e)
    /\ (s < lo -> s' = lo) /\ (hi < e -> e' = hi).
Proof.
  intros Hv Hs He. unfold _normalizeSelectionBounds. rewrite Hv, Hs, He.
  unfold js_lt; cbn [ToNumber with_selection _selection start end_].
  destruct (Qltb_spec s lo), (Qltb_spec hi e);
    eexists; eexists; (split; [reflexivity |]); (split; [reflexivity |]);
    repeat split; intros; try reflexivity; lra.
Qed.

Lemma normalize_frame (g : FlameGraph) :
  _viewRange (_normalizeSelectionBounds g) = _viewRange g
  /\ _width (_normalizeSelectionBounds g) = _width g
  /\ _pixelRatio (_normalizeSelectionBounds g) = _pixelRatio g
  /\ offsetY (_selection (_normalizeSelectionBounds g)) = offsetY (_selection g)
  /\ maxHeight (_selection (_normalizeSelectionBounds g)) = maxHeight (_selection g).
Proof.
  unfold _normalizeSelectionBounds.
  destruct (_viewRange g) as [[lo hi]|] eqn:E; cbn; rewrite ?E; repeat split.
Qed.

(** Normalization alone does not order the edges, keep [start] below the
    maximum, or enforce a minimum width. *)
Lemma normalize_keeps_inverted_selection :
  let g := with_selection graph100 (mkSelection (Some 150) (Some 120) 20 0) in
  _selection (_normalizeSelectionBounds g) = mkSelection (Some 150) (Some (0 + 100)) 20 0.
Proof. reflexivity. Qed.

(** ** Wheel *)

Lemma wheel_selection (g : FlameGraph) (e : WheelEvent) (lo hi : Q) :
  _viewRange g = Some (Some lo, Some hi) ->
  exists s' e',
    start (_selection (_onMouseWheel g e)) = Some s'
    /\ end_ (_selection (_onMouseWheel g e)) = Some e'
    /\ lo <= s' /\ e' <= hi
    /\ (lo <= fst (wheelTarget g e) -> s' = fst (wheelTarget g e))
    /\ (snd (wheelTarget g e) <= hi -> e' = snd (wheelTarget g e))
    /\ (fst (wheelTarget g e) < lo -> s' = lo)
    /\ (hi < snd (wheelTarget g e) -> e' = hi).
Proof.
  intros Hv. unfold _onMouseWheel. destruct (wheelTarget g e) as [s2 e2].
  cbn [fst snd].
  set (g1 := with_selection g _).
  destruct (normalize_outer g1 lo hi s2 e2) as (s' & e' & H); try reflexivity.
  - exact Hv.
  - exists s', e'. exact H.
Qed.

Lemma wheel_frame (g : FlameGraph) (e : WheelEvent) :
  _viewRange (_onMouseWheel g e) = _viewRange g
  /\ _width (_onMouseWheel g e) = _width g
  /\ _pixelRatio (_onMouseWheel g e) = _pixelRatio g
  /\ offsetY (_selection (_onMouseWheel g e)) = offsetY (_selection g)
  /\ maxHeight (_selection (_onMouseWheel g e)) = maxHeight (_selection g)
  /\ _shouldRedraw (_onMouseWheel g e) = true.
Proof.
  unfold _onMouseWheel. destruct (wheelTarget g e) as [s2 e2].
  set (g1 := with_selection g _).
  destruct (normalize_frame g1) as (H1 & H2 & H3 & H4 & H5).
  cbn [with_shouldRedraw _viewRange _width _pixelRatio _selection _shouldRedraw].
  rewrite H1, H2, H3, H4, H5. repeat split.
Qed.


(** Division by a canvas scale [cw / w] when the selection is empty. *)
Lemma div_by_empty_scale (k cw w : Q) : w == 0 -> k / (cw / w) == 0.
Proof.
  intros H. assert (E : cw / w == 0).
  { rewrite H. unfold Qdiv. change (/ 0) with 0. ring. }
  rewrite E. unfold Qdiv. change (/ 0) with 0. ring.
Qed.

Lemma wheelTarget_width (g : FlameGraph) (e : WheelEvent) :
  ~ _width g == 0 ->
  snd (wheelTarget g e) - fst (wheelTarget g e)
  == selectionWidth g
     * (1 + deltaY e * incrementForMode (deltaMode e) * GRAPH_WHEEL_ZOOM_SENSITIVITY).
Proof.
  intros Hw. unfold wheelTarget, selectionScale, selectionWidth. cbn [fst snd].
  set (w := ToNumber (end_ (_selection g)) - ToNumber (start (_selection g))).
  set (k := deltaY e * incrementForMode (deltaMode e) * GRAPH_WHEEL_ZOOM_SENSITIVITY).
  destruct (Qeq_dec w 0) as [Hz | Hnz].
  - rewrite (div_by_empty_scale k _ w Hz).
    assert (Hx : ToNumber (end_ (_selection g)) == ToNumber (start (_selection g)) + w)
      by (subst w; ring).
    rewrite Hx, Hz. ring.
  - subst w. field. split; assumption.
Qed.

(** X6. A wheel event changes the selection width by the factor
    [1 + deltaY * increment * 0.00035] whenever normalization clamps nothing;
    nothing bounds the result from below. *)
Lemma wheel_zoom_width (g : FlameGraph) (e : WheelEvent) (lo hi : Q) :
  _viewRange g = Some (Some lo, Some hi) ->
  ~ _width g == 0 ->
  lo <= fst (wheelTarget g e) ->
  snd (wheelTarget g e) <= hi ->
  selectionWidth (_onMouseWheel g e)
  == selectionWidth g
     * (1 + deltaY e * incrementForMode (deltaMode e) * GRAPH_WHEEL_ZOOM_SENSITIVITY).
Proof.
  intros Hv Hw Hlo Hhi.
  destruct (wheel_selection g e lo hi Hv) as (s' & e' & Hs' & He' & _ & _ & Es & Ee & _).
  unfold selectionWidth at 1. rewrite Hs', He'. cbn [ToNumber].
  rewrite (Es Hlo), (Ee Hhi). now apply wheelTarget_width.
Qed.

(** X23. The pointer-to-time reading inverts the renderer's projection: for a
    canvas of non-zero width and a selection that is not empty, the time read
    at the pixel column where the renderer puts the time [x] is
    [x * pixelRatio]. *)
Lemma timeAt_rectLeft (g : FlameGraph) (x : Q) :
  ~ _width g == 0 ->
  ~ selectionWidth g == 0 ->
  timeAt g (rectLeft g x) == x * _pixelRatio g.
Proof.
  intros Hw Hs. unfold timeAt, rectLeft, selectionScale, selectionWidth in *.
  field. split; assumption.
Qed.

(** C4. A wheel zoom ([deltaX = 0]) whose result stays inside the data extent
    keeps the time coordinate under the pointer: with [p] the pointer's
    device-pixel column, [start' + p*(end'-start')/canvasWidth] equals
    [start + p*(end-start)/canvasWidth].  Over the rationals the two are
    equal, not only close. *)
Theorem wheel_zoom_keeps_time_under_pointer
        (g : FlameGraph) (e : WheelEvent) (lo hi : Q) :
  _viewRange g = Some (Some lo, Some hi) ->
  ~ _width g == 0 ->
  deltaX e == 0 ->
  lo <= fst (wheelTarget g e) ->
  snd (wheelTarget g e) <= hi ->
  timeAt (_onMouseWheel g e) (wheelMouseX g e) == timeAt g (wheelMouseX g e).
Proof.
  intros Hv Hw Hx Hlo Hhi.
  destruct (wheel_selection g e lo hi Hv) as (s' & e' & Hs' & He' & _ & _ & Es & Ee & _).
  destruct (wheel_frame g e) as (_ & Fw & _).
  unfold timeAt. rewrite Hs', He', Fw. cbn [ToNumber].
  rewrite (Es Hlo), (Ee Hhi). clear Es Ee Hs' He' Hlo Hhi s' e'.
  unfold wheelTarget, selectionScale. cbn [fst snd].
  set (p := wheelMouseX g e).
  set (s := ToNumber (start (_selection g))).
  set (en := ToNumber (end_ (_selection g))).
  set (k := deltaY e * incrementForMode (deltaMode e) * GRAPH_WHEEL_ZOOM_SENSITIVITY).
  assert (Hpan : deltaX e * incrementForMode (deltaMode e)
                 * GRAPH_WHEEL_SCROLL_SENSITIVITY / (_width g / (en - s)) == 0).
  { rewrite Hx. unfold Qdiv. ring. }
  rewrite Hpan.
  destruct (Qeq_dec (en - s) 0) as [Hz | Hnz].
  - rewrite (div_by_empty_scale k _ _ Hz).
    assert (He : en == s + (en - s)) by ring.
    rewrite He, Hz. field. exact Hw.
  - field. split; assumption.
Qed.

Lemma wheel_zoom_keeps_time_under_pointer_witness :
  ~ _width graph100 == 0
  /\ 0 <= fst (wheelTarget graph100 (mkWheel 30 0 (-100) DOM_DELTA_PIXEL))
  /\ snd (wheelTarget graph100 (mkWheel 30 0 (-100) DOM_DELTA_PIXEL)) <= 0 + 100
  /\ timeAt (_onMouseWheel graph100 (mkWheel 30 0 (-100) DOM_DELTA_PIXEL))
            (wheelMouseX graph100 (mkWheel 30 0 (-100) DOM_DELTA_PIXEL))
     == timeAt graph100 (wheelMouseX graph100 (mkWheel 30 0 (-100) DOM_DELTA_PIXEL)).
Proof.
  split; [vm_compute; discriminate |].
  split; [vm_compute; discriminate |].
  split; [vm_compute; discriminate |].
  apply (wheel_zoom_keeps_time_under_pointer
           graph100 (mkWheel 30 0 (-100) DOM_DELTA_PIXEL) 0 (0 + 100)).
  - reflexivity.
  - vm_compute. discriminate.
  - reflexivity.
  - vm_compute. discriminate.
  - vm_compute. discriminate.
Defined.

(** The zoom of the spec's scenario: on [graph100], a wheel event with
    [deltaY = -100] in pixel mode at the horizontal centre narrows the window
    from 100 to 96.5. *)
Example wheel_zoom_scenario :
  selectionWidth (_onMouseWheel graph100 (mkWheel 50 0 (-100) DOM_DELTA_PIXEL))
  == 96.5.
Proof. vm_compute. reflexivity. Qed.

(** ** Drag *)



(** ** What every mutation keeps *)




(** ** Where the wheel handler leaves the invariants *)

(** C1. The claim fails on the wheel path.  On [graph100] (extent and window
    [[0, 100]], all invariants hold) a wheel event with [deltaX = 300] in
    pixel mode shifts the window by 150; normalization brings [end] back to
    100 and leaves [start] at 150, above both [end] and the maximum. *)
Theorem wheel_pan_breaks_ordering :
  let g := run (newFlameGraph 1 100 50 []) [EvSetData oneBlock] in
  let g' := run g [EvWheel (mkWheel 50 300 0 DOM_DELTA_PIXEL)] in
  viewport_ok g = true
  /\ _viewRange g' = Some (Some 0, Some (0 + 100))
  /\ ToNumber (start (_selection g')) == 150
  /\ ToNumber (end_ (_selection g')) == 100
  /\ outer_bounds_ok g' = true
  /\ viewport_ok g' = false.
Proof. vm_compute. repeat split. Qed.

(** The zoom component does the same: [deltaY = -100] in page mode scales the
    width by [1 - 14] and leaves [start] at 700 and [end] at -600. *)
Lemma wheel_zoom_breaks_ordering :
  let g' := _onMouseWheel graph100 (mkWheel 50 0 (-100) DOM_DELTA_PAGE) in
  ToNumber (start (_selection g')) == 700
  /\ ToNumber (end_ (_selection g')) == -600
  /\ viewport_ok g' = false.
Proof. vm_compute. repeat split. Qed.

(** C2. The claim fails: neither the zoom step nor the normalization after it
    enforces a minimum width.  On [graph10] (window [[0, 10]], exactly the
    minimum width at pixel ratio 1) one press of W, a zoom step of
    [deltaY = -100] at the canvas centre, leaves a window 9.65 wide. *)
Theorem wheel_zoom_below_minimum_width :
  let g := run (newFlameGraph 1 100 50 []) [EvSetData tenBlock] in
  let g' := run g [EvKeyPress keyW] in
  viewport_ok g = true
  /\ selectionWidth g == GRAPH_MIN_SELECTION_WIDTH * _pixelRatio g
  /\ viewport_ok g' = true
  /\ selectionWidth g' == 9.65
  /\ selectionWidth g' < GRAPH_MIN_SELECTION_WIDTH * _pixelRatio g'.
Proof. vm_compute. repeat split. Qed.

(** C3. The claim fails on the wheel path.  After one press of W on
    [graph100] the window is [[1.75, 98.25]]; a press of A pans left by 48.25,
    which would take [start] to -46.5.  The delta is not reduced: [end] moves
    by the full 48.25 to 50 and normalization alone puts [start] on 0, so the
    window shrinks from 96.5 to 50. *)
Theorem wheel_pan_at_edge_narrows_window :
  let g := run (newFlameGraph 1 100 50 []) [EvSetData oneBlock; EvKeyPress keyW] in
  let g' := run g [EvKeyPress keyA] in
  viewport_ok g = true
  /\ selectionWidth g == 96.5
  /\ fst (wheelTarget g (syntheticWheel g (-100) 0)) == -46.5
  /\ ToNumber (start (_selection g')) == 0
  /\ ToNumber (end_ (_selection g')) == 50
  /\ ~ selectionWidth g' == selectionWidth g.
Proof. vm_compute. repeat split; discriminate. Qed.

(** On the drag path the same situation keeps the width: dragging the window
    [[1.75, 98.25]] of the state above 40 pixels to the right asks for a shift
    of -38.6, and the window becomes [[0, 96.5]]. *)
Example drag_pan_at_edge_keeps_width :
  let g := run (newFlameGraph 1 100 50 []) [EvSetData oneBlock; EvKeyPress keyW] in
  let g' := run g [EvMouseDown (mkMouse 10 10); EvMouseMove (mkMouse 50 10)] in
  ToNumber (start (_selection g')) == 0
  /\ ToNumber (end_ (_selection g')) == 96.5
  /\ selectionWidth g' == selectionWidth g.
Proof. vm_compute. repeat split. Qed.

(** ** Tick planner *)

(** The values [timingStep] takes: 5, 10, ..., [5 * 2^28], then, in 32 bits,
    [-1610612736], [2^30], [-2^31] and [0] for ever. *)
Lemma timingStep_values :
  map (fun n => Nat.iter n (fun z => shl_int32 z 1) TIMELINE_TICKS_MULTIPLE)
      [28; 29; 30; 31; 32; 33]%nat
  = [1342177280; -1610612736; 1073741824; -2147483648; 0; 0]%Z.
Proof. reflexivity. Qed.

Lemma tickLoop_step (fuel : nat) (dataScale spacingMin : Q) (timingStep : Z) :
  dataScale * inject_Z timingStep < spacingMin ->
  tickLoop (S fuel) dataScale spacingMin timingStep
  = tickLoop fuel dataScale spacingMin (shl_int32 timingStep 1).
Proof. intros H. cbn [tickLoop]. now rewrite (Qltb_true _ _ H). Qed.

Lemma tickLoop_return (fuel : nat) (dataScale spacingMin : Q) (timingStep : Z) :
  spacingMin <= dataScale * inject_Z timingStep ->
  tickLoop (S fuel) dataScale spacingMin timingStep
  = Some (dataScale * inject_Z timingStep).
Proof. intros H. cbn [tickLoop]. now rewrite (Qltb_false _ _ H). Qed.

(** Once [timingStep] is 0 the loop never returns. *)
Lemma tickLoop_zero (fuel : nat) (dataScale spacingMin : Q) :
  0 < spacingMin -> tickLoop fuel dataScale spacingMin 0 = None.
Proof.
  intros H. induction fuel as [| fuel IH]; [reflexivity |].
  rewrite tickLoop_step; [exact IH |].
  change (inject_Z 0) with 0. lra.
Qed.

(** If the test fails for the current step, the loop diverges as soon as it
    diverges from the next step. *)
Lemma tickLoop_diverges_from (dataScale spacingMin : Q) (timingStep : Z) :
  dataScale * inject_Z timingStep < spacingMin ->
  (forall fuel, tickLoop fuel dataScale spacingMin (shl_int32 timingStep 1) = None) ->
  forall fuel, tickLoop fuel dataScale spacingMin timingStep = None.
Proof.
  intros H Hnext [| fuel]; [reflexivity |].
  rewrite tickLoop_step; [apply Hnext | exact H].
Qed.

(** The loop diverges for every positive scale so small that even the largest
    step, [5 * 2^28], stays below the minimum spacing. *)
Lemma tickLoop_diverges (dataScale spacingMin : Q) :
  0 < dataScale ->
  dataScale * 1342177280 < spacingMin ->
  forall fuel, tickLoop fuel dataScale spacingMin TIMELINE_TICKS_MULTIPLE = None.
Proof.
  intros Hpos Hsmall.
  assert (Hsm : 0 < spacingMin) by nra.
  unfold TIMELINE_TICKS_MULTIPLE.
  do 32 (apply tickLoop_diverges_from;
         [ match goal with
           | |- _ * inject_Z ?z < _ =>
               let v := eval vm_compute in z in
               change z with v; unfold inject_Z; nra
           end
         | match goal with
           | |- forall _, tickLoop _ _ _ ?z = _ =>
               let v := eval vm_compute in z in change z with v
           end ]).
  intros fuel. now apply tickLoop_zero.
Qed.

(** For a scale that is not that small, the loop returns within 29
    iterations. *)
Lemma tickLoop_returns (dataScale spacingMin : Q) :
  spacingMin <= dataScale * 1342177280 ->
  exists step, tickLoop 29 dataScale spacingMin TIMELINE_TICKS_MULTIPLE = Some step
               /\ spacingMin <= step.
Proof.
  intros H. unfold TIMELINE_TICKS_MULTIPLE.
  do 28 (match goal with
         | |- exists _, tickLoop (S ?f) ?d ?m ?z = _ /\ _ =>
             destruct (Qlt_le_dec (d * inject_Z z) m) as [Hlt | Hge];
             [ rewrite (tickLoop_step f d m z Hlt); clear Hlt;
               let v := eval vm_compute in (shl_int32 z 1) in
               change (shl_int32 z 1) with v
             | exists (d * inject_Z z);
               split; [now apply tickLoop_return | exact Hge] ]
         end).
  exists (dataScale * inject_Z 1342177280).
  split; [apply tickLoop_return |]; exact H.
Qed.

(** With a non-negative pixel ratio, scale 0 returns 1 before the loop is
    entered, whatever the fuel. *)
Lemma tickInterval_zero (fuel : nat) (g : FlameGraph) (dataScale : Q) :
  0 <= _pixelRatio g ->
  dataScale == 0 ->
  _findOptimalTickInterval fuel g dataScale = Some 1.
Proof.
  intros Hp Hz. unfold _findOptimalTickInterval, TIMELINE_TICKS_SPACING_MIN.
  rewrite Qltb_false by (rewrite Hz; nra).
  apply Qeq_bool_iff in Hz. now rewrite Hz.
Qed.

(** The scales for which the planner returns: above the minimum spacing, zero,
    or large enough for one of the steps 5, 10, ..., [5 * 2^28]. *)
Lemma tickInterval_returns (g : FlameGraph) (dataScale : Q) :
  0 <= _pixelRatio g ->
  dataScale == 0
  \/ TIMELINE_TICKS_SPACING_MIN * _pixelRatio g <= dataScale * 1342177280 ->
  exists interval, _findOptimalTickInterval 29 g dataScale = Some interval.
Proof.
  intros Hp [Hz | Hbig].
  - exists 1. now apply tickInterval_zero.
  - unfold _findOptimalTickInterval.
    destruct (Qltb _ dataScale); [eauto |].
    destruct (Qeq_bool dataScale 0); [eauto |].
    destruct (tickLoop_returns dataScale _ Hbig) as (step & Hs & _). eauto.
Qed.

Lemma tickInterval_diverges (g : FlameGraph) (dataScale : Q) :
  0 < dataScale ->
  dataScale * 1342177280 < TIMELINE_TICKS_SPACING_MIN * _pixelRatio g ->
  forall fuel, _findOptimalTickInterval fuel g dataScale = None.
Proof.
  intros Hpos Hsmall fuel. unfold _findOptimalTickInterval.
  rewrite Qltb_false by nra.
  destruct (Qeq_bool dataScale 0) eqn:E.
  - apply Qeq_bool_iff in E. lra.
  - now apply tickLoop_diverges.
Qed.

(** C8. The claim fails for small positive scales.  At pixel ratio 1 and
    [dataScale = 10^-9] the doubling loop never returns, however many
    iterations it is given: the 32-bit shift takes [timingStep] through
    [5 * 2^28] to negative values and then to 0, where it stays. *)
Theorem tickInterval_diverges_at_tiny_scale :
  forall fuel : nat,
    _findOptimalTickInterval fuel graph100 (1 # 1000000000) = None.
Proof.
  apply tickInterval_diverges.
  - reflexivity.
  - reflexivity.
Qed.

(** The scenario of the spec: scale 0 returns 1. *)
Example tickInterval_scale_zero :
  forall fuel : nat, _findOptimalTickInterval fuel graph100 0 = Some 1.
Proof. intros fuel. apply tickInterval_zero; [discriminate | reflexivity]. Qed.

(** ** Strings *)

Lemma length_append (s1 s2 : string) :
  String.length (s1 +:+ s2) = (String.length s1 + String.length s2)%nat.
Proof.
  induction s1 as [| c s1 IH]; [reflexivity |].
  change (String c s1 +:+ s2) with (String c (s1 +:+ s2)).
  cbn [String.length Nat.add]. now rewrite IH.
Qed.

Lemma length_prefix_le (k : nat) (s : string) :
  (String.length (String.substring 0 k s) <= k)%nat.
Proof.
  revert s. induction k as [| k IH]; intros [| c s]; cbn; try lia.
  specialize (IH s). lia.
Qed.

Lemma length_prefix (k : nat) (s : string) :
  (k <= String.length s)%nat -> String.length (String.substring 0 k s) = k.
Proof.
  revert s. induction k as [| k IH]; intros [| c s]; cbn; try lia.
  intros H. rewrite IH; lia.
Qed.

Lemma prefix_full (s : string) : String.substring 0 (String.length s) s = s.
Proof. induction s as [| c s IH]; cbn; [reflexivity | now rewrite IH]. Qed.

(** ** Numbers that may be NaN *)

Lemma num_lt_Fin (a : num) (w : Q) :
  num_lt a (Fin w) = true <-> exists q, a = Fin q /\ q < w.
Proof.
  destruct a as [| q]; cbn.
  - split; [discriminate | intros (q & H & _); discriminate].
  - destruct (Qltb_spec q w); split; try discriminate; eauto.
    + intros (q' & [= <-] & H). lra.
Qed.

Lemma num_lt_mono (a : num) (w1 w2 : Q) :
  w1 <= w2 -> num_lt a (Fin w1) = true -> num_lt a (Fin w2) = true.
Proof.
  rewrite !num_lt_Fin. intros Hw (q & -> & Hq). exists q. split; [reflexivity | lra].
Qed.

Lemma num_lt_antimono (a : num) (w1 w2 : Q) :
  w1 <= w2 -> num_lt (Fin w2) a = true -> num_lt (Fin w1) a = true.
Proof.
  destruct a as [| q]; cbn; [discriminate |].
  intros Hw. destruct (Qltb_spec w2 q); [| discriminate].
  intros _. apply Qltb_true. lra.
Qed.

(** ** Text-width cache and label fitter *)

Section LabelFitterProperties.

Variable measureText : string -> Q.
Variable inheritsProperty : string -> bool.

Lemma measureAndStore_spec (t : TextMetrics) (text : string) :
  cache_consistent measureText t ->
  fst (measureAndStore measureText t text) = Fin (measureText text)
  /\ cache_consistent measureText (snd (measureAndStore measureText t text))
  /\ _averageCharWidth (snd (measureAndStore measureText t text)) = _averageCharWidth t
  /\ _overflowCharWidth (snd (measureAndStore measureText t text)) = _overflowCharWidth t
  /\ overflowChar (snd (measureAndStore measureText t text)) = overflowChar t.
Proof.
  intros Hc. unfold measureAndStore; cbn. repeat split.
  intros s w. unfold cache_consistent in Hc. cbn.
  destruct (decide (text = s)) as [-> | Hne].
  - rewrite lookup_insert_eq. now intros [= <-].
  - rewrite lookup_insert_ne by assumption. apply Hc.
Qed.

(** With a consistent cache, [_getTextWidth] yields the measured width of
    the text, unless the text names an inherited property; the cache stays
    consistent and the other fields are untouched. *)
Lemma getTextWidth_spec (t : TextMetrics) (text : string) :
  cache_consistent measureText t ->
  (fst (_getTextWidth measureText inheritsProperty t text) = Fin (measureText text)
   \/ fst (_getTextWidth measureText inheritsProperty t text) = NaN /\ inheritsProperty text = true)
  /\ (inheritsProperty text = false ->
      fst (_getTextWidth measureText inheritsProperty t text) = Fin (measureText text))
  /\ cache_consistent measureText (snd (_getTextWidth measureText inheritsProperty t text))
  /\ _averageCharWidth (snd (_getTextWidth measureText inheritsProperty t text)) = _averageCharWidth t
  /\ _overflowCharWidth (snd (_getTextWidth measureText inheritsProperty t text)) = _overflowCharWidth t
  /\ overflowChar (snd (_getTextWidth measureText inheritsProperty t text)) = overflowChar t.
Proof.
  intros Hc. unfold _getTextWidth.
  destruct (measureAndStore_spec t text Hc) as (M1 & M2 & M3 & M4 & M5).
  destruct (_textWidthsCache t !! text) as [cached |] eqn:E.
  - destruct (truthy cached).
    + cbn. rewrite (Hc _ _ E). repeat split; auto.
    + rewrite M1. repeat split; auto.
  - destruct (inheritsProperty text) eqn:I.
    + cbn. repeat split; auto. discriminate.
    + rewrite M1. repeat split; auto.
Qed.

(** The result of the trimming loop is empty or a prefix of at most
    [len - i] characters followed by the overflow marker. *)
Lemma trimLoop_length_le (t : TextMetrics) (text : string) (w : Q)
      (len todo i : nat) :
  (String.length (trimLoop t text w len todo i)
   <= (len - i) + String.length (overflowChar t))%nat.
Proof.
  revert i. induction todo as [| todo IH]; intros i; cbn [trimLoop].
  - cbn. lia.
  - destruct (num_lt _ (Fin w)).
    + rewrite length_append. pose proof (length_prefix_le (len - i) text). lia.
    + specialize (IH (S i)). lia.
Qed.

(** The trimming loop returns a string at least as long for a larger width. *)
Lemma trimLoop_mono (t : TextMetrics) (text : string) (w1 w2 : Q)
      (len todo i : nat) :
  w1 <= w2 ->
  (len <= String.length text)%nat ->
  (String.length (trimLoop t text w1 len todo i)
   <= String.length (trimLoop t text w2 len todo i))%nat.
Proof.
  intros Hw Hlen. revert i. induction todo as [| todo IH]; intros i; cbn [trimLoop].
  - lia.
  - destruct (num_lt _ (Fin w2)) eqn:E2.
    + destruct (num_lt _ (Fin w1)) eqn:E1; [lia |].
      pose proof (trimLoop_length_le t text w1 len todo (S i)) as B.
      rewrite length_append, length_prefix by lia. lia.
    + destruct (num_lt _ (Fin w1)) eqn:E1.
      * apply (num_lt_mono _ w1 w2 Hw) in E1. congruence.
      * apply IH.
Qed.

(** What [_getFittedText] returns, by the three branches of the source. *)
Lemma getFittedText_cases (t : TextMetrics) (text : string) (w : Q) :
  let tw := fst (_getTextWidth measureText inheritsProperty t text) in
  let t' := snd (_getTextWidth measureText inheritsProperty t text) in
  fst (_getFittedText measureText inheritsProperty t text w)
  = if num_lt tw (Fin w) then text
    else if num_lt (Fin w) (_overflowCharWidth t') then ""
         else trimLoop t' text w (String.length text) (String.length text) 1.
Proof.
  unfold _getFittedText. destruct (_getTextWidth measureText inheritsProperty t text) as [tw t']. cbn [fst snd].
  destruct (num_lt tw (Fin w)); [reflexivity |].
  destruct (num_lt (Fin w) (_overflowCharWidth t')); reflexivity.
Qed.

Lemma getFittedText_consistent (t : TextMetrics) (text : string) (w : Q) :
  cache_consistent measureText t ->
  cache_consistent measureText (snd (_getFittedText measureText inheritsProperty t text w)).
Proof.
  intros Hc. destruct (getTextWidth_spec t text Hc) as (_ & _ & Hc' & _).
  unfold _getFittedText.
  destruct (_getTextWidth measureText inheritsProperty t text) as [tw t'].
  cbn [snd] in Hc'.
  destruct (num_lt tw (Fin w)); [exact Hc' |].
  destruct (num_lt (Fin w) (_overflowCharWidth t')); exact Hc'.
Qed.

(** C5, amended.  For a text that does not name an inherited property of the
    cache object and a width strictly greater than the measured width of
    the text, the label fitter returns the text unchanged. *)
Theorem fit_returns_text_below_width (t : TextMetrics) (text : string) (w : Q) :
  cache_consistent measureText t ->
  inheritsProperty text = false ->
  measureText text < w ->
  fst (_getFittedText measureText inheritsProperty t text w) = text.
Proof.
  intros Hc Hi Hw. rewrite getFittedText_cases.
  destruct (getTextWidth_spec t text Hc) as (_ & Htw & _).
  rewrite (Htw Hi). cbn [num_lt]. now rewrite Qltb_true.
Qed.

(** C6, amended.  For a text whose measured width is not below the
    available width, and an available width strictly smaller than the
    overflow marker's width, the label fitter returns the empty string. *)
Theorem fit_empty_below_marker_width
        (t : TextMetrics) (text : string) (w ow : Q) :
  cache_consistent measureText t ->
  _overflowCharWidth t = Fin ow ->
  w <= measureText text ->
  w < ow ->
  fst (_getFittedText measureText inheritsProperty t text w) = "".
Proof.
  intros Hc Ho Htext Hw. rewrite getFittedText_cases.
  destruct (getTextWidth_spec t text Hc) as (Htw & _ & _ & _ & Hov & _).
  rewrite Hov, Ho.
  assert (E : num_lt (fst (_getTextWidth measureText inheritsProperty t text)) (Fin w) = false).
  { destruct Htw as [-> | [-> _]]; cbn [num_lt]; [now apply Qltb_false | reflexivity]. }
  rewrite E. cbn [num_lt]. now rewrite Qltb_true.
Qed.

(** C7, amended.  For widths [w1 <= w2] the fitted label at [w1] is no longer
    than at [w2], provided the two widths lie on the same side of the
    measured width of the text (both above it, or neither), or the overflow
    marker has at most one character. *)
Theorem fit_length_monotone (t : TextMetrics) (text : string) (w1 w2 : Q) :
  cache_consistent measureText t ->
  w1 <= w2 ->
  measureText text < w1 \/ w2 <= measureText text
  \/ (String.length (overflowChar t) <= 1)%nat ->
  (String.length (fst (_getFittedText measureText inheritsProperty t text w1))
   <= String.length (fst (_getFittedText measureText inheritsProperty t text w2)))%nat.
Proof.
  intros Hc Hw Hside. rewrite !getFittedText_cases.
  destruct (getTextWidth_spec t text Hc) as (Htw & _ & _ & _ & _ & Hoc).
  set (tw := fst (_getTextWidth measureText inheritsProperty t text)) in *.
  set (t' := snd (_getTextWidth measureText inheritsProperty t text)) in *.
  destruct (num_lt tw (Fin w1)) eqn:E1.
  - rewrite (num_lt_mono tw w1 w2 Hw E1). lia.
  - destruct (num_lt tw (Fin w2)) eqn:E2.
    + apply num_lt_Fin in E2. destruct E2 as (q & Hq & Hlt).
      destruct Htw as [Htw | [Htw _]]; [| congruence].
      assert (Hm : q = measureText text) by congruence. subst q.
      rewrite Hq in E1. cbn [num_lt] in E1.
      destruct (Qltb_spec (measureText text) w1) as [| Hge]; [discriminate |].
      destruct Hside as [H | [H | Hmark]]; [lra | lra |].
      destruct (num_lt (Fin w1) (_overflowCharWidth t')); [cbn; lia |].
      destruct (String.length text) as [| n] eqn:En; [cbn; lia |].
      pose proof (trimLoop_length_le t' text w1 (S n) (S n) 1) as B.
      rewrite Hoc in B. lia.
    + destruct (num_lt (Fin w2) (_overflowCharWidth t')) eqn:O2.
      * now rewrite (num_lt_antimono _ w1 w2 Hw O2).
      * destruct (num_lt (Fin w1) (_overflowCharWidth t')); [cbn; lia |].
        now apply trimLoop_mono.
Qed.

End LabelFitterProperties.

(** ** The metrics the constructor computes *)

Section ConstructorMetrics.

Variable measureText : string -> Q.
Variable inheritsProperty : string -> bool.

Lemma consistent_same_cache (t1 t2 : TextMetrics) :
  _textWidthsCache t1 = _textWidthsCache t2 ->
  cache_consistent measureText t1 -> cache_consistent measureText t2.
Proof. unfold cache_consistent. intros <-. auto. Qed.

Lemma sumCharWidths_consistent (count first : nat) (sum : num) (t : TextMetrics) :
  cache_consistent measureText t ->
  cache_consistent measureText
    (snd (sumCharWidths measureText inheritsProperty count first sum t)).
Proof.
  revert first sum t. induction count as [| count IH]; intros first sum t Hc.
  - exact Hc.
  - cbn [sumCharWidths].
    destruct (getTextWidth_spec measureText inheritsProperty t (fromCharCode first) Hc)
      as (_ & _ & Hc' & _).
    destruct (_getTextWidth measureText inheritsProperty t (fromCharCode first))
      as [w t'].
    apply IH. exact Hc'.
Qed.

(** The cache the constructor leaves behind is consistent. *)
Lemma newTextMetrics_consistent (overflow : string) :
  cache_consistent measureText (newTextMetrics measureText inheritsProperty overflow).
Proof.
  unfold newTextMetrics, _calcAverageCharWidth.
  set (t0 := mkText ∅ NaN NaN overflow).
  assert (H0 : cache_consistent measureText t0).
  { intros s w. cbn. rewrite lookup_empty. discriminate. }
  pose proof (sumCharWidths_consistent (123 - 32) 32 (Fin 0) t0 H0) as H1.
  destruct (sumCharWidths measureText inheritsProperty (123 - 32) 32 (Fin 0) t0)
    as [sum t1].
  cbn [snd] in H1.
  set (t2 := mkText (_textWidthsCache t1) _ _ overflow).
  assert (H2 : cache_consistent measureText t2)
    by (apply (consistent_same_cache t1); [reflexivity | exact H1]).
  destruct (getTextWidth_spec measureText inheritsProperty t2 overflow H2)
    as (_ & _ & H3 & _).
  destruct (_getTextWidth measureText inheritsProperty t2 overflow) as [ow t3].
  apply (consistent_same_cache t3); [reflexivity | exact H3].
Qed.

End ConstructorMetrics.

(** With the fixed-pitch font the average character is 6 pixels wide and the
    marker 18; with the proportional font they are 460/91 and 15. *)
Example fixedPitchMetrics_values :
  _averageCharWidth fixedPitchMetrics = Fin (546 # 91)
  /\ _overflowCharWidth fixedPitchMetrics = Fin 18.
Proof. split; vm_compute; reflexivity. Qed.

Example proportionalMetrics_values :
  _averageCharWidth proportionalMetrics = Fin (460 # 91)
  /\ _overflowCharWidth proportionalMetrics = Fin 15.
Proof. split; vm_compute; reflexivity. Qed.

(** ** Label fitter: examples and limits *)

(** A text as wide as the available width is not returned unchanged: the
    first test of [_getFittedText] is strict.  Eleven fixed-pitch characters
    measure 66 pixels and are cut down at width 66. *)
Lemma fit_at_exact_width_trims :
  fixedPitch "abcdefghijk" <= 66
  /\ fst (_getFittedText fixedPitch objectPrototype fixedPitchMetrics
                         "abcdefghijk" 66) = "abcdefg..."
  /\ fst (_getFittedText fixedPitch objectPrototype fixedPitchMetrics
                         "abcdefghijk" 66) <> "abcdefghijk".
Proof. split; [| split]; vm_compute; [discriminate | reflexivity | discriminate]. Qed.

Lemma fit_returns_text_below_width_witness :
  fixedPitch "abcdefghijk" < 67
  /\ fst (_getFittedText fixedPitch objectPrototype fixedPitchMetrics
                         "abcdefghijk" 67) = "abcdefghijk".
Proof.
  split; [reflexivity |].
  apply (fit_returns_text_below_width
           fixedPitch objectPrototype fixedPitchMetrics "abcdefghijk" 67).
  - apply newTextMetrics_consistent.
  - reflexivity.
  - reflexivity.
Defined.

(** A text that names an inherited property is looked up, not measured: the
    function object found is not a number, the first test fails at every
    width, and the label is cut even where it would fit. *)
Example fit_inherited_name_is_trimmed :
  proportional "constructor" < 4100
  /\ fst (_getFittedText proportional objectPrototype proportionalMetrics
                         "constructor" 4100) = "constructo...".
Proof. split; vm_compute; reflexivity. Qed.

(** A width below the marker's width does not suppress a text that is
    narrower still: the first test of [_getFittedText] comes first.  The
    marker measures 18 pixels, the text 6, the available width is 10. *)
Lemma fit_below_marker_width_keeps_short_text :
  num_lt (Fin 10) (_overflowCharWidth fixedPitchMetrics) = true
  /\ fst (_getFittedText fixedPitch objectPrototype fixedPitchMetrics "a" 10) = "a"
  /\ fst (_getFittedText fixedPitch objectPrototype fixedPitchMetrics "a" 10) <> "".
Proof. split; [| split]; vm_compute; [reflexivity | reflexivity | discriminate]. Qed.

Lemma fit_empty_below_marker_width_witness :
  10 <= fixedPitch "abc" /\ 10 < 18
  /\ fst (_getFittedText fixedPitch objectPrototype fixedPitchMetrics "abc" 10) = "".
Proof.
  split; [discriminate |]. split; [reflexivity |].
  apply (fit_empty_below_marker_width
           fixedPitch objectPrototype fixedPitchMetrics "abc" 10 18).
  - apply newTextMetrics_consistent.
  - vm_compute. reflexivity.
  - discriminate.
  - reflexivity.
Defined.

(** The label can get longer as the width shrinks.  In the proportional font
    [WWWW] measures 40 pixels: at width 41 it is returned as it is (4
    characters), at width 40 it is replaced by [WWW...] (6 characters), whose
    approximate width, [3 * 460/91 + 15], is below 40. *)
Lemma fit_length_not_monotone :
  40 <= 41
  /\ fst (_getFittedText proportional objectPrototype proportionalMetrics "WWWW" 40)
     = "WWW..."
  /\ fst (_getFittedText proportional objectPrototype proportionalMetrics "WWWW" 41)
     = "WWWW"
  /\ ~ (String.length
          (fst (_getFittedText proportional objectPrototype proportionalMetrics
                               "WWWW" 40))
        <= String.length
             (fst (_getFittedText proportional objectPrototype proportionalMetrics
                                  "WWWW" 41)))%nat.
Proof.
  split; [discriminate |]. split; [vm_compute; reflexivity |].
  split; [vm_compute; reflexivity |]. vm_compute. lia.
Qed.

Lemma fit_length_monotone_witness :
  30 <= 40 /\ 40 <= proportional "WWWW"
  /\ (String.length
        (fst (_getFittedText proportional objectPrototype proportionalMetrics
                             "WWWW" 30))
      <= String.length
           (fst (_getFittedText proportional objectPrototype proportionalMetrics
                                "WWWW" 40)))%nat.
Proof.
  split; [discriminate |]. split; [discriminate |].
  apply (fit_length_monotone
           proportional objectPrototype proportionalMetrics "WWWW" 30 40).
  - apply newTextMetrics_consistent.
  - discriminate.
  - right. left. discriminate.
Defined.

(** * Further properties of the viewport *)

Lemma Qltb_irrefl (a : Q) : Qltb a a = false.
Proof. apply Qltb_false. lra. Qed.

(** X1. Normalizing twice is normalizing once: a frame that follows a
    normalized state changes nothing in the selection. *)
Theorem normalize_idempotent (g : FlameGraph) :
  _normalizeSelectionBounds (_normalizeSelectionBounds g)
  = _normalizeSelectionBounds g.
Proof.
  unfold _normalizeSelectionBounds at 2.
  destruct (_viewRange g) as [[lo hi]|] eqn:Hv.
  - unfold _normalizeSelectionBounds.
    cbn [with_selection _viewRange _selection start end_ maxHeight offsetY _pixelRatio].
    rewrite Hv. unfold with_selection.
    cbn [_pixelRatio _width _height offsetParents _viewRange _data _selectionDragger
         _shouldRedraw].
    f_equal. f_equal.
    + destruct (js_lt (start (_selection g)) lo) eqn:E.
      * unfold js_lt. now rewrite Qltb_irrefl.
      * now rewrite E.
    + destruct (js_lt hi (end_ (_selection g))) eqn:E.
      * unfold js_lt. now rewrite Qltb_irrefl.
      * now rewrite E.
  - unfold _normalizeSelectionBounds. now rewrite Hv.
Qed.

(** X2. Once a view range is set, normalization leaves [start] at or above its
    lower bound and [end] at or below its upper bound ([null] counting as 0),
    and it does not touch an edge that is already on the right side of its
    bound. *)
Theorem normalize_clamps (g : FlameGraph) (lo hi : option Q) :
  _viewRange g = Some (lo, hi) ->
  ToNumber lo <= ToNumber (start (_selection (_normalizeSelectionBounds g)))
  /\ ToNumber (end_ (_selection (_normalizeSelectionBounds g))) <= ToNumber hi
  /\ (ToNumber lo <= ToNumber (start (_selection g)) ->
      start (_selection (_normalizeSelectionBounds g)) = start (_selection g))
  /\ (ToNumber (end_ (_selection g)) <= ToNumber hi ->
      end_ (_selection (_normalizeSelectionBounds g)) = end_ (_selection g)).
Proof.
  intros Hv. unfold _normalizeSelectionBounds. rewrite Hv.
  cbn [with_selection _selection start end_]. unfold js_lt.
  destruct (Qltb_spec (ToNumber (start (_selection g))) (ToNumber lo));
    destruct (Qltb_spec (ToNumber hi) (ToNumber (end_ (_selection g))));
    repeat split; intros; try reflexivity; lra.
Qed.

Lemma normalize_clamps_witness :
  _viewRange (setData (newFlameGraph 1 100 50 []) []) = Some (None, None)
  /\ ToNumber (end_ (_selection (_normalizeSelectionBounds
                                   (setData (newFlameGraph 1 100 50 []) []))))
     <= ToNumber None.
Proof.
  split; [reflexivity |].
  apply (normalize_clamps (setData (newFlameGraph 1 100 50 []) []) None None).
  reflexivity.
Defined.



(** ** Drag *)








(** ** Wheel events that keep all the invariants *)

Lemma wheel_zoom_width_witness :
  ~ _width graph100 == 0
  /\ 0 <= fst (wheelTarget graph100 (mkWheel 30 0 (-100) DOM_DELTA_PIXEL))
  /\ snd (wheelTarget graph100 (mkWheel 30 0 (-100) DOM_DELTA_PIXEL)) <= 0 + 100
  /\ selectionWidth (_onMouseWheel graph100 (mkWheel 30 0 (-100) DOM_DELTA_PIXEL))
     == selectionWidth graph100 * (1 + -100 * 1 * GRAPH_WHEEL_ZOOM_SENSITIVITY).
Proof.
  split; [vm_compute; discriminate |].
  split; [vm_compute; discriminate |].
  split; [vm_compute; discriminate |].
  apply (wheel_zoom_width graph100 (mkWheel 30 0 (-100) DOM_DELTA_PIXEL) 0 (0 + 100)).
  - reflexivity.
  - vm_compute. discriminate.
  - vm_compute. discriminate.
  - vm_compute. discriminate.
Defined.

(** The edges a wheel event aims at, with the two divisions folded into the
    ratio [u] of selection width to canvas width. *)
Lemma wheelTarget_formula (g : FlameGraph) (e : WheelEvent) :
  ~ _width g == 0 ->
  let s := ToNumber (start (_selection g)) in
  let en := ToNumber (end_ (_selection g)) in
  let u := (en - s) / _width g in
  let p := wheelMouseX g e in
  let kY := deltaY e * incrementForMode (deltaMode e) * GRAPH_WHEEL_ZOOM_SENSITIVITY in
  let kX := deltaX e * incrementForMode (deltaMode e) * GRAPH_WHEEL_SCROLL_SENSITIVITY in
  fst (wheelTarget g e) == s - p * (kY * u) + kX * u
  /\ snd (wheelTarget g e) == en + (_width g - p) * (kY * u) + kX * u.
Proof.
  intros Hw s en u p kY kX.
  assert (HY : kY / (_width g / (en - s)) == kY * u).
  { destruct (Qeq_dec (en - s) 0) as [Hz | Hnz].
    - rewrite (div_by_empty_scale kY _ _ Hz). subst u. rewrite Hz.
      unfold Qdiv. ring.
    - subst u. field. split; assumption. }
  assert (HX : kX / (_width g / (en - s)) == kX * u).
  { destruct (Qeq_dec (en - s) 0) as [Hz | Hnz].
    - rewrite (div_by_empty_scale kX _ _ Hz). subst u. rewrite Hz.
      unfold Qdiv. ring.
    - subst u. field. split; assumption. }
  unfold wheelTarget, selectionScale. cbn [fst snd].
  fold s en p kY kX. rewrite HY, HX. split; ring.
Qed.

Lemma width_ratio (w cw : Q) :
  0 <= w -> 0 < cw -> 0 <= w / cw /\ w / cw * cw == w.
Proof.
  intros Hw Hc. split.
  - apply Qle_shift_div_l; [exact Hc | lra].
  - field. lra.
Qed.

(** The wheel handler re-establishes all invariants when its target window
    is ordered and meets the data extent. *)
Lemma wheel_ok_from_target (g : FlameGraph) (e : WheelEvent) :
  viewport_ok g = true ->
  (forall lo hi, _viewRange g = Some (Some lo, Some hi) ->
                 fst (wheelTarget g e) <= snd (wheelTarget g e)
                 /\ fst (wheelTarget g e) <= hi
                 /\ lo <= snd (wheelTarget g e)) ->
  viewport_ok (_onMouseWheel g e) = true.
Proof.
  intros Hg HT. apply viewport_ok_spec in Hg.
  destruct Hg as (lo & hi & s & en & Hv & Hs & He & ? & ? & ? & ? & ?).
  destruct (HT lo hi Hv) as (T1 & T2 & T3).
  destruct (wheel_selection g e lo hi Hv)
    as (s' & e' & Hs' & He' & ? & ? & Es & Ee & Ls & Le).
  destruct (wheel_frame g e) as (Fv & _ & _ & Fo & Fm & _).
  apply viewport_ok_spec. exists lo, hi, s', e'.
  rewrite Fv, Fo, Fm. repeat split; try assumption.
  destruct (Qlt_le_dec (fst (wheelTarget g e)) lo) as [L1 | L1];
    destruct (Qlt_le_dec hi (snd (wheelTarget g e))) as [L2 | L2];
    rewrite ?(Ls L1), ?(Es L1), ?(Le L2), ?(Ee L2); lra.
Qed.

Lemma wheel_zoom_ok (g : FlameGraph) (e : WheelEvent) :
  viewport_ok g = true ->
  0 < _width g ->
  deltaX e == 0 ->
  0 <= wheelMouseX g e ->
  wheelMouseX g e <= _width g ->
  -1 <= deltaY e * incrementForMode (deltaMode e) * GRAPH_WHEEL_ZOOM_SENSITIVITY ->
  viewport_ok (_onMouseWheel g e) = true.
Proof.
  intros Hg Hw Hx Hp0 Hp1 Hk. apply wheel_ok_from_target; [exact Hg |].
  intros lo hi Hv. apply viewport_ok_spec in Hg.
  destruct Hg as (lo' & hi' & s & en & Hv' & Hs & He & ? & ? & ? & _).
  rewrite Hv in Hv'. injection Hv' as <- <-.
  destruct (wheelTarget_formula g e) as (F1 & F2); [lra |].
  rewrite Hs, He in F1, F2. cbn [ToNumber] in F1, F2.
  destruct (width_ratio (en - s) (_width g)) as (U0 & U1); [lra | lra |].
  set (u := (en - s) / _width g) in *.
  set (p := wheelMouseX g e) in *.
  set (kY := deltaY e * incrementForMode (deltaMode e) * GRAPH_WHEEL_ZOOM_SENSITIVITY) in *.
  assert (HX : deltaX e * incrementForMode (deltaMode e)
               * GRAPH_WHEEL_SCROLL_SENSITIVITY == 0) by (rewrite Hx; ring).
  rewrite HX in F1, F2.
  rewrite F1, F2.
  assert (0 <= p * u) by nra.
  assert (0 <= (_width g - p) * u) by nra.
  assert (Hc : (_width g - p) * u == (en - s) - p * u) by nra.
  set (pu := p * u) in *. set (qu := (_width g - p) * u) in *.
  assert (E1 : p * (kY * u) == kY * pu) by (subst pu; ring).
  assert (E2 : (_width g - p) * (kY * u) == kY * qu) by (subst qu; ring).
  rewrite E1, E2.
  destruct (Qlt_le_dec kY 0); repeat split; nra.
Qed.

Lemma wheel_pan_ok (g : FlameGraph) (e : WheelEvent) :
  viewport_ok g = true ->
  0 < _width g ->
  deltaY e == 0 ->
  - _width g <= deltaX e * incrementForMode (deltaMode e) * GRAPH_WHEEL_SCROLL_SENSITIVITY ->
  deltaX e * incrementForMode (deltaMode e) * GRAPH_WHEEL_SCROLL_SENSITIVITY <= _width g ->
  viewport_ok (_onMouseWheel g e) = true.
Proof.
  intros Hg Hw Hy Hk0 Hk1. apply wheel_ok_from_target; [exact Hg |].
  intros lo hi Hv. apply viewport_ok_spec in Hg.
  destruct Hg as (lo' & hi' & s & en & Hv' & Hs & He & ? & ? & ? & _).
  rewrite Hv in Hv'. injection Hv' as <- <-.
  destruct (wheelTarget_formula g e) as (F1 & F2); [lra |].
  rewrite Hs, He in F1, F2. cbn [ToNumber] in F1, F2.
  destruct (width_ratio (en - s) (_width g)) as (U0 & U1); [lra | lra |].
  set (u := (en - s) / _width g) in *.
  set (kX := deltaX e * incrementForMode (deltaMode e) * GRAPH_WHEEL_SCROLL_SENSITIVITY) in *.
  assert (HY : deltaY e * incrementForMode (deltaMode e)
               * GRAPH_WHEEL_ZOOM_SENSITIVITY == 0) by (rewrite Hy; ring).
  rewrite HY in F1, F2.
  rewrite F1, F2.
  repeat split; nra.
Qed.

(** X7. A wheel event keeps every invariant, the order of the edges included,
    when it is a pure zoom with the pointer over the canvas and a factor that
    is not negative, or a pure pan by at most one window width. *)
Theorem wheel_keeps_viewport_ok (g : FlameGraph) (e : WheelEvent) :
  viewport_ok g = true ->
  0 < _width g ->
  (deltaX e == 0
   /\ 0 <= wheelMouseX g e /\ wheelMouseX g e <= _width g
   /\ -1 <= deltaY e * incrementForMode (deltaMode e) * GRAPH_WHEEL_ZOOM_SENSITIVITY)
  \/ (deltaY e == 0
      /\ - _width g
         <= deltaX e * incrementForMode (deltaMode e) * GRAPH_WHEEL_SCROLL_SENSITIVITY
      /\ deltaX e * incrementForMode (deltaMode e) * GRAPH_WHEEL_SCROLL_SENSITIVITY
         <= _width g) ->
  viewport_ok (_onMouseWheel g e) = true.
Proof.
  intros Hg Hw [(Hx & Hp0 & Hp1 & Hk) | (Hy & Hk0 & Hk1)].
  - now apply wheel_zoom_ok.
  - now apply wheel_pan_ok.
Qed.

Lemma wheel_keeps_viewport_ok_witness :
  viewport_ok graph100 = true
  /\ 0 < _width graph100
  /\ viewport_ok (_onMouseWheel graph100 (mkWheel 50 200 0 DOM_DELTA_PIXEL)) = true.
Proof.
  split; [reflexivity |]. split; [reflexivity |].
  apply (wheel_keeps_viewport_ok graph100 (mkWheel 50 200 0 DOM_DELTA_PIXEL)).
  - reflexivity.
  - reflexivity.
  - right. split; [reflexivity |]. split; vm_compute; discriminate.
Defined.




(** ** The extent [setData] computes *)

Lemma scanLayers_flat (data : list Layer.t) (acc : option Q * option Q * option Q) :
  fold_left scanLayer data acc = fold_left scanBlock (allBlocks data) acc.
Proof.
  revert acc. induction data as [| layer data IH]; intros acc; [reflexivity |].
  unfold allBlocks. cbn [map concat fold_left]. rewrite fold_left_app.
  rewrite IH. reflexivity.
Qed.

(** One block: the three accumulators bound the block, keep the bounds they
    had, and each is still what it was or has become the block's own value. *)
Lemma scanBlock_spec (mn mx mh : option Q) (b : Block.t) :
  exists mn' mx' mh',
    scanBlock (mn, mx, mh) b = (mn', mx', mh')
    /\ lower mn' (Block.x b)
    /\ upper mx' (Block.x b + Block.width b)
    /\ upper mh' (Block.y b + Block.height b)
    /\ (forall v, lower mn v -> lower mn' v)
    /\ (forall v, upper mx v -> upper mx' v)
    /\ (forall v, upper mh v -> upper mh' v)
    /\ (mn' = mn \/ mn' = Some (Block.x b))
    /\ (mx' = mx \/ mx' = Some (Block.x b + Block.width b))
    /\ (mh' = mh \/ mh' = Some (Block.y b + Block.height b)).
Proof.
  unfold scanBlock. eexists; eexists; eexists. split; [reflexivity |].
  destruct mn as [mn|], mx as [mx|], mh as [mh|]; cbn [null_or lower upper];
    split_tests; cbn [lower upper];
    repeat split; intros; auto; try lra.
Qed.

Lemma scanBlocks_spec (bs : list Block.t) (mn mx mh : option Q) :
  exists mn' mx' mh',
    fold_left scanBlock bs (mn, mx, mh) = (mn', mx', mh')
    /\ (forall b, In b bs ->
                  lower mn' (Block.x b)
                  /\ upper mx' (Block.x b + Block.width b)
                  /\ upper mh' (Block.y b + Block.height b))
    /\ (forall v, lower mn v -> lower mn' v)
    /\ (forall v, upper mx v -> upper mx' v)
    /\ (forall v, upper mh v -> upper mh' v)
    /\ (mn' = mn \/ exists b, In b bs /\ mn' = Some (Block.x b))
    /\ (mx' = mx \/ exists b, In b bs /\ mx' = Some (Block.x b + Block.width b))
    /\ (mh' = mh \/ exists b, In b bs /\ mh' = Some (Block.y b + Block.height b)).
Proof.
  revert mn mx mh. induction bs as [| b bs IH]; intros mn mx mh.
  - exists mn, mx, mh. cbn. repeat split; auto; contradiction.
  - destruct (scanBlock_spec mn mx mh b)
      as (mn1 & mx1 & mh1 & E1 & L1 & U1 & H1 & Kn & Kx & Kh & Tn & Tx & Th).
    destruct (IH mn1 mx1 mh1)
      as (mn' & mx' & mh' & E & C & Kn' & Kx' & Kh' & Tn' & Tx' & Th').
    exists mn', mx', mh'. cbn [fold_left]. rewrite E1.
    split; [exact E |]. split; [| repeat split].
    + intros b' [<- | Hin]; [| now apply C]. auto.
    + auto.
    + auto.
    + auto.
    + destruct Tn' as [-> | (b' & ? & ->)];
        [ destruct Tn as [-> | ->]; [now left | right; exists b; cbn; auto]
        | right; exists b'; cbn; auto ].
    + destruct Tx' as [-> | (b' & ? & ->)];
        [ destruct Tx as [-> | ->]; [now left | right; exists b; cbn; auto]
        | right; exists b'; cbn; auto ].
    + destruct Th' as [-> | (b' & ? & ->)];
        [ destruct Th as [-> | ->]; [now left | right; exists b; cbn; auto]
        | right; exists b'; cbn; auto ].
Qed.

Lemma or_default_value (m : option Q) (d : Q) :
  (exists q, m = Some q /\ ~ q == 0 /\ or_default m d = q)
  \/ (ToNumber m == 0 /\ or_default m d = d).
Proof.
  destruct m as [q|]; cbn [or_default ToNumber]; [| right; split; reflexivity].
  unfold truthy. destruct (Qeq_bool q 0) eqn:E; cbn [negb].
  - right. split; [now apply Qeq_bool_iff | reflexivity].
  - left. exists q. repeat split. intros H. apply Qeq_bool_iff in H. congruence.
Qed.

(** X9. For a data source with at least one block, the view range [setData]
    stores is the exact extent of the data: it bounds every block on both
    sides, its minimum is the left edge of some block and its maximum the
    right edge of some block.  The selection starts at the minimum, and
    [maxHeight] is at least the bottom of every block. *)
Theorem setData_extent (g : FlameGraph) (data : list Layer.t) :
  allBlocks data <> [] ->
  exists lo hi,
    _viewRange (setData g data) = Some (Some lo, Some hi)
    /\ (forall b, In b (allBlocks data) ->
                  lo <= Block.x b
                  /\ Block.x b + Block.width b <= hi
                  /\ Block.y b + Block.height b <= maxHeight (_selection (setData g data)))
    /\ (exists b, In b (allBlocks data) /\ lo = Block.x b)
    /\ (exists b, In b (allBlocks data) /\ hi = Block.x b + Block.width b)
    /\ ToNumber (start (_selection (setData g data))) == lo.
Proof.
  intros Hne. unfold setData. rewrite scanLayers_flat.
  destruct (scanBlocks_spec (allBlocks data) None None None)
    as (mn & mx & mh & E & C & _ & _ & _ & Tn & Tx & Th).
  rewrite E. cbn [_viewRange _selection start maxHeight ToNumber].
  destruct (allBlocks data) as [| b0 bs] eqn:Eb; [congruence |].
  destruct (C b0 (or_introl eq_refl)) as (L0 & U0 & H0).
  destruct mn as [lo|]; [| contradiction].
  destruct mx as [hi|]; [| contradiction].
  destruct mh as [top|]; [| contradiction].
  exists lo, hi. split; [reflexivity |].
  split; [| split; [| split]].
  - intros b Hb. destruct (C b Hb) as (L & U & H). cbn [lower upper] in L, U, H.
    repeat split; try assumption.
    destruct (or_default_value (Some top) 2000) as [(q & [= <-] & _ & ->) | (Z0 & ->)];
      [exact H |]. cbn [ToNumber] in Z0. lra.
  - destruct Tn as [? | (b & Hb & [= ->])]; [discriminate | eauto].
  - destruct Tx as [? | (b & Hb & [= ->])]; [discriminate | eauto].
  - destruct (or_default_value (Some lo) 0) as [(q & [= <-] & _ & ->) | (Z0 & ->)];
      [reflexivity |]. cbn [ToNumber] in Z0. lra.
Qed.

Lemma setData_extent_witness :
  allBlocks oneBlock <> []
  /\ exists lo hi,
      _viewRange (setData (newFlameGraph 1 100 50 []) oneBlock) = Some (Some lo, Some hi)
      /\ (exists b, In b (allBlocks oneBlock) /\ lo = Block.x b).
Proof.
  split; [discriminate |].
  destruct (setData_extent (newFlameGraph 1 100 50 []) oneBlock)
    as (lo & hi & Hv & _ & Hlo & _).
  - discriminate.
  - exists lo, hi. split; assumption.
Defined.

(** X10. [setData] establishes every invariant of the viewport as soon as the
    data holds one block of non-negative width that ends after time 0 and
    whose bottom is not negative: the selection is then the whole extent. *)
Theorem setData_establishes_invariants
        (g : FlameGraph) (data : list Layer.t) (b : Block.t) :
  In b (allBlocks data) ->
  0 <= Block.width b ->
  0 < Block.x b + Block.width b ->
  0 <= Block.y b + Block.height b ->
  viewport_ok (setData g data) = true
  /\ exists lo hi,
      _viewRange (setData g data) = Some (Some lo, Some hi)
      /\ ToNumber (start (_selection (setData g data))) == lo
      /\ ToNumber (end_ (_selection (setData g data))) == hi.
Proof.
  intros Hb Hw Hr Hh. unfold setData. rewrite scanLayers_flat.
  destruct (scanBlocks_spec (allBlocks data) None None None)
    as (mn & mx & mh & E & C & _).
  rewrite E. destruct (C b Hb) as (L & U & H).
  destruct mn as [lo|]; [| contradiction].
  destruct mx as [hi|]; [| contradiction].
  destruct mh as [top|]; [| contradiction].
  cbn [lower upper] in L, U, H.
  assert (Hs : or_default (Some lo) 0 == lo).
  { destruct (or_default_value (Some lo) 0) as [(q & [= <-] & _ & ->) | (Z0 & ->)];
      [reflexivity |]. cbn [ToNumber] in Z0. lra. }
  assert (He : or_default (Some hi) 1000 == hi).
  { destruct (or_default_value (Some hi) 1000) as [(q & [= <-] & _ & ->) | (Z0 & ->)];
      [reflexivity |]. cbn [ToNumber] in Z0. lra. }
  assert (Hm : 0 <= or_default (Some top) 2000).
  { destruct (or_default_value (Some top) 2000) as [(q & [= <-] & _ & ->) | (Z0 & ->)];
      lra. }
  split.
  - apply viewport_ok_spec.
    exists lo, hi, (or_default (Some lo) 0), (or_default (Some hi) 1000).
    cbn [_viewRange _selection start end_ offsetY maxHeight].
    repeat split; lra.
  - exists lo, hi. cbn [_viewRange _selection start end_ ToNumber].
    repeat split; assumption.
Qed.

Lemma setData_establishes_invariants_witness :
  In (Block.mk 0 0 100 20 "abc") (allBlocks oneBlock)
  /\ viewport_ok (setData (newFlameGraph 1 100 50 []) oneBlock) = true.
Proof.
  split; [left; reflexivity |].
  apply (setData_establishes_invariants
           (newFlameGraph 1 100 50 []) oneBlock (Block.mk 0 0 100 20 "abc")).
  - left. reflexivity.
  - discriminate.
  - reflexivity.
  - discriminate.
Defined.

(** * Further properties of the tick planner and the ruler *)

Lemma tickLoop_result (fuel : nat) (dataScale spacingMin : Q) (timingStep : Z) (v : Q) :
  tickLoop fuel dataScale spacingMin timingStep = Some v ->
  spacingMin <= v.
Proof.
  revert timingStep. induction fuel as [| fuel IH]; intros z; cbn [tickLoop];
    [discriminate |].
  destruct (Qltb_spec (dataScale * inject_Z z) spacingMin).
  - apply IH.
  - intros [= <-]. lra.
Qed.

(** X11. For a scale and a pixel ratio that are not negative, the planner
    returns exactly when the scale is 0 or at least
    [75 * pixelRatio / (5 * 2^28)]: below that, the doubling of the step
    overflows 32 bits before any step is large enough. *)
Theorem tickInterval_returns_iff (g : FlameGraph) (dataScale : Q) :
  0 <= _pixelRatio g ->
  0 <= dataScale ->
  (exists fuel interval, _findOptimalTickInterval fuel g dataScale = Some interval)
  <-> (dataScale == 0
       \/ TIMELINE_TICKS_SPACING_MIN * _pixelRatio g <= dataScale * 1342177280).
Proof.
  intros Hp Hd. split.
  - intros (fuel & v & Hv).
    destruct (Qeq_dec dataScale 0) as [Hz | Hnz]; [now left |]. right.
    destruct (Qlt_le_dec (dataScale * 1342177280)
                         (TIMELINE_TICKS_SPACING_MIN * _pixelRatio g)) as [Hlt | Hge];
      [| exact Hge].
    rewrite tickInterval_diverges in Hv; [discriminate | lra | exact Hlt].
  - intros H. destruct (tickInterval_returns g dataScale Hp H) as (v & Hv).
    exists 29%nat, v. exact Hv.
Qed.

Lemma tickInterval_returns_iff_witness :
  0 <= _pixelRatio graph100 /\ 0 <= 1
  /\ exists fuel interval, _findOptimalTickInterval fuel graph100 1 = Some interval.
Proof.
  split; [discriminate |]. split; [discriminate |].
  apply (tickInterval_returns_iff graph100 1).
  - discriminate.
  - discriminate.
  - right. vm_compute. discriminate.
Defined.

(** X12. At a positive pixel ratio, an interval the planner returns is
    positive, and it is at least the minimum spacing [75 * pixelRatio] unless
    the scale is 0, where it is 1. *)
Theorem tickInterval_spacing (fuel : nat) (g : FlameGraph) (dataScale interval : Q) :
  0 < _pixelRatio g ->
  _findOptimalTickInterval fuel g dataScale = Some interval ->
  0 < interval
  /\ (dataScale == 0 /\ interval = 1
      \/ TIMELINE_TICKS_SPACING_MIN * _pixelRatio g <= interval).
Proof.
  intros Hp. unfold _findOptimalTickInterval.
  assert (Hs : 0 < TIMELINE_TICKS_SPACING_MIN * _pixelRatio g)
    by (unfold TIMELINE_TICKS_SPACING_MIN; lra).
  destruct (Qltb_spec (TIMELINE_TICKS_SPACING_MIN * _pixelRatio g) dataScale).
  - intros [= <-]. split; [lra | right; lra].
  - destruct (Qeq_bool dataScale 0) eqn:E.
    + intros [= <-]. apply Qeq_bool_iff in E. split; [reflexivity | now left].
    + intros H. apply tickLoop_result in H. split; [lra | now right].
Qed.

Lemma tickInterval_spacing_witness :
  0 < _pixelRatio graph100
  /\ _findOptimalTickInterval 10 graph100 1 = Some (1 * inject_Z 80)
  /\ TIMELINE_TICKS_SPACING_MIN * _pixelRatio graph100 <= 1 * inject_Z 80.
Proof.
  split; [reflexivity |]. split; [reflexivity |].
  destruct (tickInterval_spacing 10 graph100 1 (1 * inject_Z 80)) as (_ & [(H & _) | H]).
  - reflexivity.
  - reflexivity.
  - discriminate H.
  - exact H.
Defined.


Lemma progression_length (n : nat) (x step : Q) : length (progression n x step) = n.
Proof. revert x. induction n; intros x; cbn; [reflexivity | now rewrite IHn]. Qed.





(** * Further properties of the text metrics and the label fitter *)

Section MemoizationProperties.

Variable measureText : string -> Q.
Variable inheritsProperty : string -> bool.

(** [_getTextWidth] touches the cache only. *)
Lemma getTextWidth_fields (t : TextMetrics) (text : string) :
  _averageCharWidth (snd (_getTextWidth measureText inheritsProperty t text))
  = _averageCharWidth t
  /\ _overflowCharWidth (snd (_getTextWidth measureText inheritsProperty t text))
     = _overflowCharWidth t
  /\ overflowChar (snd (_getTextWidth measureText inheritsProperty t text))
     = overflowChar t.
Proof.
  unfold _getTextWidth, measureAndStore.
  destruct (_textWidthsCache t !! text) as [c|].
  - destruct (truthy c); repeat split.
  - destruct (inheritsProperty text); repeat split.
Qed.

(** The state [_getFittedText] leaves is the one its call of [_getTextWidth]
    leaves. *)
Lemma getFittedText_state (t : TextMetrics) (text : string) (w : Q) :
  snd (_getFittedText measureText inheritsProperty t text w)
  = snd (_getTextWidth measureText inheritsProperty t text).
Proof.
  unfold _getFittedText.
  destruct (_getTextWidth measureText inheritsProperty t text) as [tw t'].
  destruct (num_lt tw (Fin w)); [reflexivity |].
  destruct (num_lt (Fin w) (_overflowCharWidth t')); reflexivity.
Qed.

(** Measuring one text does not change the width reported for any text. *)
Lemma getTextWidth_after (t : TextMetrics) (other text : string) :
  fst (_getTextWidth measureText inheritsProperty
                     (snd (_getTextWidth measureText inheritsProperty t other)) text)
  = fst (_getTextWidth measureText inheritsProperty t text).
Proof.
  unfold _getTextWidth at 2. unfold measureAndStore.
  destruct (_textWidthsCache t !! other) as [c|] eqn:Eo.
  - destruct (truthy c) eqn:Tc; [reflexivity |].
    cbn [snd]. unfold _getTextWidth, measureAndStore.
    cbn [with_cache _textWidthsCache].
    destruct (decide (other = text)) as [-> | Hne].
    + rewrite lookup_insert_eq, Eo, Tc.
      destruct (truthy (measureText text)); reflexivity.
    + rewrite lookup_insert_ne by assumption.
      destruct (_textWidthsCache t !! text) as [c'|];
        [destruct (truthy c') | destruct (inheritsProperty text)]; reflexivity.
  - destruct (inheritsProperty other) eqn:Io; [reflexivity |].
    cbn [snd]. unfold _getTextWidth, measureAndStore.
    cbn [with_cache _textWidthsCache].
    destruct (decide (other = text)) as [-> | Hne].
    + rewrite lookup_insert_eq, Eo, Io.
      destruct (truthy (measureText text)); reflexivity.
    + rewrite lookup_insert_ne by assumption.
      destruct (_textWidthsCache t !! text) as [c'|];
        [destruct (truthy c') | destruct (inheritsProperty text)]; reflexivity.
Qed.

(** The trimming loop reads the three metrics of the state, not its cache. *)
Lemma trimLoop_fields (t1 t2 : TextMetrics) (text : string) (w : Q) (len todo i : nat) :
  _averageCharWidth t1 = _averageCharWidth t2 ->
  _overflowCharWidth t1 = _overflowCharWidth t2 ->
  overflowChar t1 = overflowChar t2 ->
  trimLoop t1 text w len todo i = trimLoop t2 text w len todo i.
Proof.
  intros Ha Ho Hc. revert i. induction todo as [| todo IH]; intros i; [reflexivity |].
  cbn [trimLoop]. unfold _getTextWidthApprox. rewrite Ha, Ho, Hc, IH. reflexivity.
Qed.

(** X14. The cache is transparent: the label fitted for a text at a width is
    the same whether or not another label (or the same one) has been fitted
    before. *)
Theorem fit_independent_of_history
        (t : TextMetrics) (other text : string) (w' w : Q) :
  fst (_getFittedText measureText inheritsProperty
                      (snd (_getFittedText measureText inheritsProperty t other w'))
                      text w)
  = fst (_getFittedText measureText inheritsProperty t text w).
Proof.
  rewrite getFittedText_state. rewrite !getFittedText_cases.
  rewrite getTextWidth_after.
  set (t1 := snd (_getTextWidth measureText inheritsProperty t other)).
  destruct (getTextWidth_fields t other) as (A1 & O1 & C1). fold t1 in A1, O1, C1.
  destruct (getTextWidth_fields t1 text) as (A2 & O2 & C2).
  destruct (getTextWidth_fields t text) as (A3 & O3 & C3).
  rewrite O2, O1, O3.
  destruct (num_lt _ (Fin w)); [reflexivity |].
  destruct (num_lt (Fin w) (_overflowCharWidth t)); [reflexivity |].
  apply trimLoop_fields; congruence.
Qed.

End MemoizationProperties.

(** ** The shape of a fitted label *)

(** The trimming loop from index [i] on: it returns the empty string after
    every remaining prefix has failed the test, or the first prefix that
    passes it, followed by the marker. *)
Lemma trimLoop_spec (t : TextMetrics) (text : string) (w : Q) (todo i : nat) :
  (todo + i = String.length text + 1)%nat ->
  (1 <= i)%nat ->
  (trimLoop t text w (String.length text) todo i = ""
   /\ forall j, (i <= j <= String.length text)%nat ->
                fitsApprox t w (String.length text - j) = false)
  \/ exists j,
      (i <= j <= String.length text)%nat
      /\ trimLoop t text w (String.length text) todo i
         = String.substring 0 (String.length text - j) text +:+ overflowChar t
      /\ fitsApprox t w (String.length text - j) = true
      /\ forall j', (i <= j' < j)%nat ->
                    fitsApprox t w (String.length text - j') = false.
Proof.
  revert i. induction todo as [| todo IH]; intros i Hsum Hi.
  - left. split; [reflexivity |]. intros j Hj. lia.
  - cbn [trimLoop]. unfold _getTextWidthApprox, length_num.
    rewrite length_prefix by lia.
    fold (fitsApprox t w (String.length text - i)).
    destruct (fitsApprox t w (String.length text - i)) eqn:E.
    + right. exists i. repeat split; try lia. exact E.
    + destruct (IH (S i)) as [(R & N) | (j & Hj & R & F & N)]; try lia.
      * left. split; [exact R |]. intros j Hj.
        destruct (Nat.eq_dec j i) as [-> | Hne]; [exact E | apply N; lia].
      * right. exists j. repeat split; try lia; try assumption.
        intros j' Hj'.
        destruct (Nat.eq_dec j' i) as [-> | Hne]; [exact E | apply N; lia].
Qed.

Section LabelShape.

Variable measureText : string -> Q.
Variable inheritsProperty : string -> bool.

(** X15. A fitted label is the text itself, or empty, or a proper prefix of
    the text followed by the overflow marker; in the last case the prefix is
    the longest proper prefix whose approximate width plus the marker's width
    is below the available width. *)
Theorem fit_shape (t : TextMetrics) (text : string) (w : Q) :
  fst (_getFittedText measureText inheritsProperty t text w) = text
  \/ fst (_getFittedText measureText inheritsProperty t text w) = ""
  \/ exists k,
      (k < String.length text)%nat
      /\ fst (_getFittedText measureText inheritsProperty t text w)
         = String.substring 0 k text +:+ overflowChar t
      /\ fitsApprox t w k = true
      /\ forall k', (k < k' < String.length text)%nat -> fitsApprox t w k' = false.
Proof.
  rewrite getFittedText_cases.
  destruct (getTextWidth_fields measureText inheritsProperty t text) as (A & O & C).
  set (t' := snd (_getTextWidth measureText inheritsProperty t text)) in *.
  destruct (num_lt _ (Fin w)); [now left |]. right.
  destruct (num_lt (Fin w) (_overflowCharWidth t')); [now left |].
  assert (Hfit : forall k, fitsApprox t' w k = fitsApprox t w k)
    by (intros k; unfold fitsApprox; now rewrite A, O).
  destruct (trimLoop_spec t' text w (String.length text) 1)
    as [(R & _) | (j & Hj & R & F & N)]; try lia.
  - now left.
  - right. exists (String.length text - j)%nat.
    rewrite R, C, <- Hfit. repeat split; try lia; try assumption.
    intros k' Hk'. rewrite <- Hfit.
    replace k' with (String.length text - (String.length text - k'))%nat by lia.
    apply N. lia.
Qed.

(** X16. The length of the fitted label grows with the available width, for
    all widths, when the average character width is not negative and the
    measured width of the text is at most the approximate width of a trimmed
    label one character longer than the text (as it is for every text in a
    fixed-pitch font). *)
Theorem fit_length_monotone_when_approximation_dominates
        (t : TextMetrics) (text : string) (a o w1 w2 : Q) :
  cache_consistent measureText t ->
  _averageCharWidth t = Fin a ->
  _overflowCharWidth t = Fin o ->
  0 <= a ->
  measureText text
  <= inject_Z (Z.of_nat (String.length text)
               - Z.of_nat (String.length (overflowChar t)) + 1) * a + o ->
  w1 <= w2 ->
  (String.length (fst (_getFittedText measureText inheritsProperty t text w1))
   <= String.length (fst (_getFittedText measureText inheritsProperty t text w2)))%nat.
Proof.
  intros Hc Ha Ho Hpos Hdom Hw. rewrite !getFittedText_cases.
  destruct (getTextWidth_spec measureText inheritsProperty t text Hc)
    as (Htw & _ & _ & A & O & C).
  set (tw := fst (_getTextWidth measureText inheritsProperty t text)) in *.
  set (t' := snd (_getTextWidth measureText inheritsProperty t text)) in *.
  destruct (num_lt tw (Fin w1)) eqn:E1.
  - rewrite (num_lt_mono tw w1 w2 Hw E1). lia.
  - destruct (num_lt tw (Fin w2)) eqn:E2.
    + apply num_lt_Fin in E2. destruct E2 as (q & Hq & Hlt).
      destruct Htw as [Htw | [Htw _]]; [| congruence].
      assert (Hm : q = measureText text) by congruence. subst q.
      rewrite Hq in E1. cbn [num_lt] in E1.
      destruct (Qltb_spec (measureText text) w1) as [| Hge]; [discriminate |].
      destruct (num_lt (Fin w1) (_overflowCharWidth t')); [cbn; lia |].
      destruct (trimLoop_spec t' text w1 (String.length text) 1)
        as [(R & _) | (j & Hj & R & F & _)]; try lia.
      * rewrite R. cbn. lia.
      * rewrite R, length_append, length_prefix by lia. rewrite C.
        unfold fitsApprox in F. rewrite A, O, Ha, Ho in F.
        cbn [num_mul num_add num_lt] in F.
        destruct (Qltb_spec
                    (inject_Z (Z.of_nat (String.length text - j)) * a + o) w1)
          as [Hfit |]; [| discriminate].
        destruct (Z_lt_le_dec (Z.of_nat (String.length text - j))
                              (Z.of_nat (String.length text)
                               - Z.of_nat (String.length (overflowChar t)) + 1))
          as [Hk | Hk]; [lia |].
        rewrite Zle_Qle in Hk. nra.
    + destruct (num_lt (Fin w2) (_overflowCharWidth t')) eqn:O2.
      * now rewrite (num_lt_antimono _ w1 w2 Hw O2).
      * destruct (num_lt (Fin w1) (_overflowCharWidth t')); [cbn; lia |].
        now apply trimLoop_mono.
Qed.

End LabelShape.

Lemma fit_length_monotone_when_approximation_dominates_witness :
  66 <= 67
  /\ (String.length
        (fst (_getFittedText fixedPitch objectPrototype fixedPitchMetrics
                             "abcdefghijk" 66))
      <= String.length
           (fst (_getFittedText fixedPitch objectPrototype fixedPitchMetrics
                                "abcdefghijk" 67)))%nat.
Proof.
  split; [discriminate |].
  apply (fit_length_monotone_when_approximation_dominates
           fixedPitch objectPrototype fixedPitchMetrics "abcdefghijk"
           (546 # 91) 18 66 67).
  - apply newTextMetrics_consistent.
  - vm_compute. reflexivity.
  - vm_compute. reflexivity.
  - discriminate.
  - vm_compute. discriminate.
  - discriminate.
Defined.

(** ** The metrics of the constructor *)

Section ConstructorValues.

Variable measureText : string -> Q.
Variable inheritsProperty : string -> bool.

Lemma sumCharWidths_value (count first : nat) (s0 : Q) (t : TextMetrics) :
  cache_consistent measureText t ->
  (forall i, (first <= i < first + count)%nat ->
             inheritsProperty (fromCharCode i) = false) ->
  fst (sumCharWidths measureText inheritsProperty count first (Fin s0) t)
  = Fin (sumMeasured measureText first count s0).
Proof.
  revert first s0 t. induction count as [| count IH]; intros first s0 t Hc Hi.
  - reflexivity.
  - cbn [sumCharWidths].
    destruct (getTextWidth_spec measureText inheritsProperty t (fromCharCode first) Hc)
      as (_ & Hv & Hc' & _).
    rewrite (surjective_pairing
               (_getTextWidth measureText inheritsProperty t (fromCharCode first))).
    rewrite (Hv (Hi first ltac:(lia))). cbn [num_add].
    rewrite IH; [reflexivity | exact Hc' |].
    intros i Hr. apply Hi. lia.
Qed.

(** X17. When no single character names an inherited property, the average
    character width the constructor stores is the sum of the measured widths
    of the 91 characters with codes 32 to 122, divided by 91; the marker's
    width is its measured width, unless the marker names an inherited
    property. *)
Theorem newTextMetrics_values (overflow : string) :
  (forall i, (32 <= i < 123)%nat -> inheritsProperty (fromCharCode i) = false) ->
  inheritsProperty overflow = false ->
  _averageCharWidth (newTextMetrics measureText inheritsProperty overflow)
  = Fin (sumMeasured measureText 32 91 0 / 91)
  /\ _overflowCharWidth (newTextMetrics measureText inheritsProperty overflow)
     = Fin (measureText overflow)
  /\ overflowChar (newTextMetrics measureText inheritsProperty overflow) = overflow.
Proof.
  intros Hi Ho. unfold newTextMetrics, _calcAverageCharWidth.
  set (t0 := mkText ∅ NaN NaN overflow).
  assert (H0 : cache_consistent measureText t0).
  { intros s w. cbn. rewrite lookup_empty. discriminate. }
  pose proof (sumCharWidths_value (123 - 32) 32 0 t0 H0) as Hsum.
  pose proof (sumCharWidths_consistent measureText inheritsProperty
                (123 - 32) 32 (Fin 0) t0 H0) as H1.
  destruct (sumCharWidths measureText inheritsProperty (123 - 32) 32 (Fin 0) t0)
    as [sum t1].
  cbn [fst snd] in Hsum, H1. rewrite Hsum by (intros i Hr; apply Hi; lia).
  set (t2 := mkText (_textWidthsCache t1) _ _ overflow).
  assert (H2 : cache_consistent measureText t2)
    by (apply (consistent_same_cache measureText t1); [reflexivity | exact H1]).
  destruct (getTextWidth_spec measureText inheritsProperty t2 overflow H2)
    as (_ & Hv & _ & Ha & _).
  rewrite (surjective_pairing (_getTextWidth measureText inheritsProperty t2 overflow)).
  cbn [_averageCharWidth _overflowCharWidth overflowChar].
  rewrite Ha, (Hv Ho). repeat split.
Qed.

End ConstructorValues.

Lemma objectPrototype_names_are_long (s : string) :
  objectPrototype s = true -> (2 <= String.length s)%nat.
Proof.
  unfold objectPrototype. intros H. apply existsb_exists in H.
  destruct H as (name & Hin & Heq). apply String.eqb_eq in Heq. subst name.
  cbn [In] in Hin.
  repeat (destruct Hin as [<- | Hin]; [cbn; lia |]). contradiction.
Qed.

Lemma objectPrototype_single_char (i : nat) : objectPrototype (fromCharCode i) = false.
Proof.
  destruct (objectPrototype (fromCharCode i)) eqn:E; [| reflexivity].
  apply objectPrototype_names_are_long in E. cbn in E. lia.
Qed.

Lemma newTextMetrics_values_witness :
  objectPrototype "..." = false
  /\ _overflowCharWidth (newTextMetrics fixedPitch objectPrototype "...")
     = Fin (fixedPitch "...").
Proof.
  split; [reflexivity |].
  apply (newTextMetrics_values fixedPitch objectPrototype "...").
  - intros i _. apply objectPrototype_single_char.
  - reflexivity.
Defined.

(** * Properties of the renderer *)

(** One iteration of the fill loop adds nothing, or one rectangle; it adds a
    block to the store only together with its rectangle. *)
Lemma fillBlock_cases (g : FlameGraph) (dataOffset dataScale : Q) (m : num)
      (acc : list command * list Block.t) (b : Block.t) :
  fillBlock g dataOffset dataScale m acc b = acc
  \/ exists x y w h,
      fst (fillBlock g dataOffset dataScale m acc b) = fst acc ++ [Rect x y w h]
      /\ (snd (fillBlock g dataOffset dataScale m acc b) = snd acc
          \/ snd (fillBlock g dataOffset dataScale m acc b) = snd acc ++ [b])
      /\ 0 <= x /\ (0 <= _width g -> x <= _width g) /\ y <= _height g
      /\ 0 < w /\ 0 < h.
Proof.
  unfold fillBlock.
  set (rl := Block.x b * _pixelRatio g * dataScale - dataOffset * dataScale).
  set (rt := (Block.y b + OVERVIEW_HEADER_HEIGHT - offsetY (_selection g))
             * _pixelRatio g).
  set (rw := Block.width b * _pixelRatio g * dataScale).
  set (rh := Block.height b * _pixelRatio g).
  unfold FLAME_GRAPH_BLOCK_BORDER.
  destruct (Qltb_spec (_width g) rl); [now left |].
  destruct (Qltb_spec rl (- rw)); [now left |].
  destruct (Qltb_spec (_height g) rt); [now left |].
  cbn [orb].
  destruct (Qltb_spec rl 0).
  - destruct (Qle_bool_spec (rw + rl) 1); [now left |].
    destruct (Qle_bool_spec rh 1); [now left |].
    cbn [orb]. right. eexists; eexists; eexists; eexists.
    split; [reflexivity |]. cbn [snd].
    split; [destruct (num_lt m (Fin (rw + rl))); auto |].
    repeat split; intros; lra.
  - destruct (Qle_bool_spec rw 1); [now left |].
    destruct (Qle_bool_spec rh 1); [now left |].
    cbn [orb]. right. eexists; eexists; eexists; eexists.
    split; [reflexivity |]. cbn [snd].
    split; [destruct (num_lt m (Fin rw)); auto |].
    repeat split; intros; lra.
Qed.

(** The fill loop over a list of blocks: the path grows by rectangles that
    lie on the canvas, the store by a sublist of the blocks, and never by
    more blocks than rectangles. *)
Lemma fillBlocks_spec (g : FlameGraph) (dataOffset dataScale : Q) (m : num)
      (blocks : list Block.t) (acc : list command * list Block.t) :
  exists path added,
    fold_left (fillBlock g dataOffset dataScale m) blocks acc
    = (fst acc ++ path, snd acc ++ added)
    /\ (0 <= _width g -> Forall (rect_on_canvas g) path)
    /\ forallb is_rect path = true
    /\ sublist added blocks
    /\ (length added <= length path <= length blocks)%nat.
Proof.
  revert acc. induction blocks as [| b blocks IH]; intros acc.
  - exists [], []. cbn. rewrite !app_nil_r. destruct acc.
    repeat split; auto; constructor.
  - cbn [fold_left].
    destruct (fillBlock_cases g dataOffset dataScale m acc b)
      as [E | (x & y & w & h & Ef & Es & B)].
    + rewrite E. destruct (IH acc) as (path & added & E' & F & R & S & L).
      exists path, added. split; [exact E' |]. repeat split; auto.
      * now apply sublist_cons.
      * lia.
      * cbn [length]. lia.
    + destruct (IH (fillBlock g dataOffset dataScale m acc b))
        as (path & added & E' & F & R & S & L).
      rewrite E', Ef.
      destruct Es as [Es | Es]; rewrite Es.
      * exists (Rect x y w h :: path), added.
        rewrite <- !app_assoc. split; [reflexivity |].
        repeat split; auto.
        -- intros Hw. constructor; [| now apply F]. cbn.
           destruct B as (? & ? & ? & ? & ?). repeat split; auto.
        -- now apply sublist_cons.
        -- cbn [length]. lia.
        -- cbn [length]. lia.
      * exists (Rect x y w h :: path), (b :: added).
        rewrite <- !app_assoc. split; [reflexivity |].
        repeat split; auto.
        -- intros Hw. constructor; [| now apply F]. cbn.
           destruct B as (? & ? & ? & ? & ?). repeat split; auto.
        -- now apply sublist_skip.
        -- cbn [length]. lia.
        -- cbn [length]. lia.
Qed.

Lemma filter_rects_all (path : list command) :
  forallb is_rect path = true -> List.filter is_rect path = path.
Proof.
  induction path as [| c path IH]; [reflexivity |].
  cbn [forallb List.filter]. intros H. apply andb_true_iff in H as [Hc Hp].
  rewrite Hc, IH by assumption. reflexivity.
Qed.

(** One layer: the commands are the fill style, the path and the fill. *)
Lemma drawBlocksFill_spec (g : FlameGraph) (color : string) (blocks : list Block.t)
      (dataOffset dataScale : Q) (store : list Block.t) (m : num) :
  exists path added,
    _drawBlocksFill g color blocks dataOffset dataScale store m
    = ([SetFillStyle color; BeginPath] ++ path ++ [Fill], store ++ added)
    /\ (0 <= _width g -> Forall (rect_on_canvas g) path)
    /\ forallb is_rect path = true
    /\ sublist added blocks
    /\ (length added <= length path <= length blocks)%nat.
Proof.
  unfold _drawBlocksFill.
  destruct (fillBlocks_spec g dataOffset dataScale m blocks ([], store))
    as (path & added & E & H).
  rewrite E. cbn [fst snd app]. exists path, added. split; [reflexivity | exact H].
Qed.

(** All layers: the store ends up a sublist of all the blocks, and there are
    at least as many rectangles as stored blocks. *)
Lemma drawPyramidFill_spec (g : FlameGraph) (t : TextMetrics)
      (dataOffset dataScale : Q) (data : list Layer.t)
      (acc : list command * list Block.t) :
  exists cmds added,
    fold_left
      (fun acc layer =>
         let (cmds, store) :=
           _drawBlocksFill g (Layer.color layer) (Layer.blocks layer)
                           dataOffset dataScale (snd acc) (_overflowCharWidth t) in
         (fst acc ++ cmds, store))
      data acc
    = (fst acc ++ cmds, snd acc ++ added)
    /\ (0 <= _width g -> Forall (rect_on_canvas g) cmds)
    /\ sublist added (allBlocks data)
    /\ (length added <= length (List.filter is_rect cmds) <= length (allBlocks data))%nat.
Proof.
  revert acc. induction data as [| layer data IH]; intros acc.
  - exists [], []. cbn. rewrite !app_nil_r. destruct acc.
    repeat split; auto; constructor.
  - cbn [fold_left].
    destruct (drawBlocksFill_spec g (Layer.color layer) (Layer.blocks layer)
                dataOffset dataScale (snd acc) (_overflowCharWidth t))
      as (path & added & E & F & R & S & L).
    rewrite E.
    destruct (IH (fst acc ++ [SetFillStyle (Layer.color layer); BeginPath] ++ path ++ [Fill],
                  snd acc ++ added))
      as (cmds & added' & E' & F' & S' & L').
    rewrite E'. cbn [fst snd].
    exists (([SetFillStyle (Layer.color layer); BeginPath] ++ path ++ [Fill]) ++ cmds),
           (added ++ added').
    rewrite <- !app_assoc. split; [reflexivity |].
    split; [| split].
    + intros Hw. cbn [app]. repeat constructor.
      apply Forall_app. split; [now apply F |].
      constructor; [exact I | now apply F'].
    + unfold allBlocks. cbn [map concat]. now apply sublist_app.
    + unfold allBlocks in *. cbn [map concat app List.filter is_rect].
      rewrite !List.filter_app. cbn [List.filter is_rect].
      rewrite filter_rects_all by assumption.
      rewrite !length_app. cbn [length]. lia.
Qed.

(** X18. Every rectangle of the fill pass starts on the canvas: its left edge
    is between 0 and the canvas width, its top edge is not below the canvas,
    and its width and height are positive. *)
Theorem pyramidFill_rects_on_canvas
        (g : FlameGraph) (t : TextMetrics) (data : list Layer.t)
        (dataOffset dataScale : Q) :
  0 <= _width g ->
  Forall (rect_on_canvas g) (fst (_drawPyramidFill g t data dataOffset dataScale)).
Proof.
  intros Hw. unfold _drawPyramidFill.
  destruct (drawPyramidFill_spec g t dataOffset dataScale data ([], []))
    as (cmds & added & E & F & _).
  rewrite E. cbn [fst app]. now apply F.
Qed.

Lemma pyramidFill_rects_on_canvas_witness :
  0 <= _width graph100
  /\ Forall (rect_on_canvas graph100)
            (fst (_drawPyramidFill graph100 fixedPitchMetrics oneBlock 0 1)).
Proof.
  split; [discriminate |].
  apply (pyramidFill_rects_on_canvas graph100 fixedPitchMetrics oneBlock 0 1).
  discriminate.
Defined.

(** X19. The blocks kept for the label pass are a sublist of the blocks of the
    data, in their order, and each of them has had its rectangle drawn: there
    are never more stored blocks than rectangles, nor more rectangles than
    blocks. *)
Theorem pyramidFill_store
        (g : FlameGraph) (t : TextMetrics) (data : list Layer.t)
        (dataOffset dataScale : Q) :
  sublist (snd (_drawPyramidFill g t data dataOffset dataScale)) (allBlocks data)
  /\ (length (snd (_drawPyramidFill g t data dataOffset dataScale))
      <= length (List.filter is_rect
                             (fst (_drawPyramidFill g t data dataOffset dataScale)))
      <= length (allBlocks data))%nat.
Proof.
  unfold _drawPyramidFill.
  destruct (drawPyramidFill_spec g t dataOffset dataScale data ([], []))
    as (cmds & added & E & _ & S & L).
  rewrite E. cbn [fst snd app]. split; assumption.
Qed.

(** A block outside the selection is skipped by the fill loop. *)
Lemma fillBlock_outside (g : FlameGraph) (m : num)
      (acc : list command * list Block.t) (b : Block.t) :
  0 < _width g ->
  ToNumber (start (_selection g)) < ToNumber (end_ (_selection g)) ->
  outside_selection g b ->
  fillBlock g (ToNumber (start (_selection g))) (selectionScale g) m acc b = acc.
Proof.
  intros Hw Hse Hout. unfold fillBlock, selectionScale.
  set (s := ToNumber (start (_selection g))) in *.
  set (en := ToNumber (end_ (_selection g))) in *.
  assert (Hsc : 0 < _width g / (en - s)) by (apply Qlt_shift_div_l; lra).
  assert (Hprod : _width g / (en - s) * (en - s) == _width g) by (field; lra).
  set (sc := _width g / (en - s)) in *.
  destruct Hout as [Hl | Hr]; fold s en in Hl || fold s en in Hr.
  - assert (H : Block.x b * _pixelRatio g * sc - s * sc
                < - (Block.width b * _pixelRatio g * sc)) by nra.
    rewrite (Qltb_true _ _ H). now rewrite orb_true_r.
  - assert (H : _width g < Block.x b * _pixelRatio g * sc - s * sc) by nra.
    now rewrite (Qltb_true _ _ H).
Qed.

Lemma fillBlocks_outside (g : FlameGraph) (m : num) (blocks : list Block.t)
      (acc : list command * list Block.t) :
  0 < _width g ->
  ToNumber (start (_selection g)) < ToNumber (end_ (_selection g)) ->
  Forall (outside_selection g) blocks ->
  fold_left (fillBlock g (ToNumber (start (_selection g))) (selectionScale g) m)
            blocks acc = acc.
Proof.
  intros Hw Hse Hall. revert acc.
  induction Hall as [| b blocks Hb _ IH]; intros acc; [reflexivity |].
  cbn [fold_left]. rewrite fillBlock_outside by assumption. apply IH.
Qed.

Lemma drawPyramidFill_outside (g : FlameGraph) (t : TextMetrics) (data : list Layer.t)
      (acc : list command * list Block.t) :
  0 < _width g ->
  ToNumber (start (_selection g)) < ToNumber (end_ (_selection g)) ->
  Forall (outside_selection g) (allBlocks data) ->
  exists cmds,
    fold_left
      (fun acc layer =>
         let (cmds, store) :=
           _drawBlocksFill g (Layer.color layer) (Layer.blocks layer)
                           (ToNumber (start (_selection g))) (selectionScale g)
                           (snd acc) (_overflowCharWidth t) in
         (fst acc ++ cmds, store))
      data acc
    = (fst acc ++ cmds, snd acc)
    /\ List.filter is_rect cmds = [].
Proof.
  intros Hw Hse. revert acc. unfold allBlocks.
  induction data as [| layer data IH]; intros acc Hall.
  - exists []. cbn. rewrite app_nil_r. destruct acc. split; reflexivity.
  - cbn [map concat] in Hall. apply Forall_app in Hall as [Hl Hd].
    cbn [fold_left]. unfold _drawBlocksFill at 2.
    rewrite fillBlocks_outside by assumption.
    destruct (IH (fst acc ++ [SetFillStyle (Layer.color layer); BeginPath] ++ [] ++ [Fill],
                  snd acc) Hd)
      as (cmds & E & F).
    rewrite E. cbn [fst snd].
    exists (([SetFillStyle (Layer.color layer); BeginPath] ++ [] ++ [Fill]) ++ cmds).
    rewrite <- !app_assoc. split; [reflexivity |].
    cbn [app List.filter is_rect]. exact F.
Qed.

(** X20. Blocks that lie outside the selected time window are culled: when
    every block of the data ends before the selection starts or starts after
    it ends, the fill pass draws no rectangle and keeps no block for the
    label pass. *)
Theorem pyramidFill_culls_outside
        (g : FlameGraph) (t : TextMetrics) (data : list Layer.t) :
  0 < _width g ->
  ToNumber (start (_selection g)) < ToNumber (end_ (_selection g)) ->
  Forall (outside_selection g) (allBlocks data) ->
  List.filter is_rect
    (fst (_drawPyramidFill g t data (ToNumber (start (_selection g)))
                           (selectionScale g))) = []
  /\ snd (_drawPyramidFill g t data (ToNumber (start (_selection g)))
                           (selectionScale g)) = [].
Proof.
  intros Hw Hse Hall. unfold _drawPyramidFill.
  destruct (drawPyramidFill_outside g t data ([], []) Hw Hse Hall) as (cmds & E & F).
  rewrite E. cbn [fst snd app]. split; [exact F | reflexivity].
Qed.

Lemma pyramidFill_culls_outside_witness :
  0 < _width graph100
  /\ Forall (outside_selection graph100)
            (allBlocks [Layer.mk "#0f0" [Block.mk 200 0 10 20 "late"]])
  /\ snd (_drawPyramidFill graph100 fixedPitchMetrics
                           [Layer.mk "#0f0" [Block.mk 200 0 10 20 "late"]]
                           (ToNumber (start (_selection graph100)))
                           (selectionScale graph100)) = [].
Proof.
  assert (H : Forall (outside_selection graph100)
                     (allBlocks [Layer.mk "#0f0" [Block.mk 200 0 10 20 "late"]])).
  { constructor; [right; vm_compute; reflexivity | constructor]. }
  split; [reflexivity |]. split; [exact H |].
  apply (pyramidFill_culls_outside graph100 fixedPitchMetrics
           [Layer.mk "#0f0" [Block.mk 200 0 10 20 "late"]]).
  - reflexivity.
  - reflexivity.
  - exact H.
Defined.

Section LabelPass.

Variable measureText : string -> Q.
Variable inheritsProperty : string -> bool.

(** X21. The label pass recomputes the rectangle of the fill pass: when a
    block has a rectangle and a label, the label starts
    [3 * pixelRatio] to the right of the rectangle's left edge and
    [(height / 2 + 1) * pixelRatio] below its top edge, and it is the block's
    text fitted to the rectangle's width (border included) less
    [6 * pixelRatio] of padding; it is never empty. *)
Theorem label_follows_rectangle
        (g : FlameGraph) (t t' : TextMetrics) (m : num) (b : Block.t)
        (dataOffset dataScale rx ry rw rh tx ty : Q) (l : label) :
  fst (fillBlock g dataOffset dataScale m ([], []) b) = [Rect rx ry rw rh] ->
  _drawBlockText measureText inheritsProperty g t b dataOffset dataScale
  = ([FillText l tx ty], t') ->
  tx = rx + FLAME_GRAPH_BLOCK_TEXT_PADDING_LEFT * _pixelRatio g
  /\ ty == ry + (Block.height b / 2 + FLAME_GRAPH_BLOCK_TEXT_PADDING_TOP) * _pixelRatio g
  /\ exists available,
      available == rw + FLAME_GRAPH_BLOCK_BORDER
                   - (FLAME_GRAPH_BLOCK_TEXT_PADDING_LEFT
                      + FLAME_GRAPH_BLOCK_TEXT_PADDING_RIGHT) * _pixelRatio g
      /\ l = BlockLabel
               (fst (_getFittedText measureText inheritsProperty t
                                    (Block.text b) available))
      /\ (1 <= String.length
                 (fst (_getFittedText measureText inheritsProperty t
                                      (Block.text b) available)))%nat.
Proof.
  unfold fillBlock, _drawBlockText.
  set (rl := Block.x b * _pixelRatio g * dataScale - dataOffset * dataScale).
  set (rwd := Block.width b * _pixelRatio g * dataScale).
  destruct (Qltb (_width g) rl || Qltb rl (- rwd) || Qltb (_height g) _);
    [discriminate |].
  destruct (Qle_bool _ FLAME_GRAPH_BLOCK_BORDER || Qle_bool _ FLAME_GRAPH_BLOCK_BORDER);
    [discriminate |].
  cbn [fst app]. intros [= <- <- <- <-].
  set (avail := (if Qltb rl 0 then rwd + rl else rwd)
                - (FLAME_GRAPH_BLOCK_TEXT_PADDING_LEFT * _pixelRatio g
                   + FLAME_GRAPH_BLOCK_TEXT_PADDING_RIGHT * _pixelRatio g)).
  destruct (_getFittedText measureText inheritsProperty t (Block.text b) avail)
    as [fitted t''] eqn:Efit.
  destruct (Nat.ltb_spec (String.length fitted) 1); [discriminate |].
  intros [= <- <- <- <-].
  split; [reflexivity |]. split.
  - unfold OVERVIEW_HEADER_HEIGHT, FLAME_GRAPH_BLOCK_TEXT_PADDING_TOP. field.
  - exists avail. rewrite Efit. cbn [fst]. repeat split; [| assumption].
    subst avail. unfold FLAME_GRAPH_BLOCK_BORDER. ring.
Qed.

End LabelPass.

Lemma label_follows_rectangle_witness :
  exists rx ry rw rh tx ty l t',
    fst (fillBlock graph100 0 1 (Fin 18) ([], []) (Block.mk 0 0 100 20 "abc"))
    = [Rect rx ry rw rh]
    /\ _drawBlockText fixedPitch objectPrototype graph100 fixedPitchMetrics
                      (Block.mk 0 0 100 20 "abc") 0 1
       = ([FillText l tx ty], t')
    /\ tx = rx + FLAME_GRAPH_BLOCK_TEXT_PADDING_LEFT * _pixelRatio graph100.
Proof.
  do 8 eexists.
  assert (H1 : fst (fillBlock graph100 0 1 (Fin 18) ([], [])
                              (Block.mk 0 0 100 20 "abc")) = [Rect _ _ _ _])
    by (vm_compute; reflexivity).
  assert (H2 : _drawBlockText fixedPitch objectPrototype graph100 fixedPitchMetrics
                              (Block.mk 0 0 100 20 "abc") 0 1
               = ([FillText _ _ _], _))
    by (vm_compute; reflexivity).
  split; [exact H1 |]. split; [exact H2 |].
  exact (proj1 (label_follows_rectangle fixedPitch objectPrototype graph100
                  fixedPitchMetrics _ (Fin 18) (Block.mk 0 0 100 20 "abc")
                  0 1 _ _ _ _ _ _ _ H1 H2)).
Defined.

(** * Properties of frames *)

Lemma normalize_normalized (g : FlameGraph) : normalized (_normalizeSelectionBounds g).
Proof.
  unfold normalized, _normalizeSelectionBounds.
  destruct (_viewRange g) as [[lo hi]|] eqn:Hv.
  - cbn [with_selection _viewRange _selection start end_]. rewrite Hv. split.
    + destruct (js_lt (start (_selection g)) lo) eqn:E; [| exact E].
      unfold js_lt. apply Qltb_irrefl.
    + destruct (js_lt hi (end_ (_selection g))) eqn:E; [| exact E].
      unfold js_lt. apply Qltb_irrefl.
  - now rewrite Hv.
Qed.

Lemma normalize_stable (g : FlameGraph) :
  normalized g -> _normalizeSelectionBounds g = g.
Proof.
  destruct g as [pr w h ps vr d [s e mh oy] dr f].
  unfold normalized, _normalizeSelectionBounds. cbn.
  destruct vr as [[lo hi]|]; [| reflexivity].
  intros [-> ->]. reflexivity.
Qed.

Section FrameProperties.

Variable measureText : string -> Q.
Variable inheritsProperty : string -> bool.
Variable reflectSize : Q -> Q.

(** X22. A frame that follows a frame draws nothing and changes nothing,
    provided the canvas stores the sizes it is given: whatever the first
    frame did (it drew and cleared the dirty flag, or found nothing to do),
    the second one, for the same layout box, returns with no drawing command
    and leaves the widget as it found it. *)
Theorem second_frame_draws_nothing
        (fuel fuel' : nat) (w w' : Widget) (bounds : Q * Q) (cmds : list command) :
  reflectSize (frameWidth w bounds) == frameWidth w bounds ->
  reflectSize (frameHeight w bounds) == frameHeight w bounds ->
  _drawWidget measureText inheritsProperty reflectSize fuel w bounds
  = Returns (w', cmds) ->
  _drawWidget measureText inheritsProperty reflectSize fuel' w' bounds
  = Returns (w', []).
Proof.
  intros Hrw Hrh. unfold frameWidth, frameHeight in Hrw, Hrh.
  destruct (normalize_frame (graph w)) as (_ & _ & Fp & _).
  pose proof (normalize_normalized (graph w)) as Hn.
  unfold _drawWidget at 1. rewrite Fp.
  set (g1 := _normalizeSelectionBounds (graph w)) in *.
  set (W := or_default (fixedWidth w) (fst bounds) * _pixelRatio (graph w)) in *.
  set (H := or_default (fixedHeight w) (snd bounds) * _pixelRatio (graph w)) in *.
  cbn [with_size _width _height].
  set (wc := negb (Qeq_bool W (canvas_width w))).
  set (hc := negb (Qeq_bool H (canvas_height w))).
  set (cW := if wc then reflectSize W else canvas_width w).
  set (cH := if hc then reflectSize H else canvas_height w).
  assert (HcW : Qeq_bool W cW = true).
  { subst cW wc. destruct (Qeq_bool W (canvas_width w)) eqn:E; cbn [negb].
    - exact E.
    - apply Qeq_bool_iff. now rewrite Hrw. }
  assert (HcH : Qeq_bool H cH = true).
  { subst cH hc. destruct (Qeq_bool H (canvas_height w)) eqn:E; cbn [negb].
    - exact E.
    - apply Qeq_bool_iff. now rewrite Hrh. }
  set (g3 := if wc || hc then with_shouldRedraw (with_size g1 W H) true
             else with_size g1 W H).
  assert (Hg3 : forall f,
             _normalizeSelectionBounds (with_shouldRedraw g3 f) = with_shouldRedraw g3 f
             /\ _pixelRatio (with_shouldRedraw g3 f) = _pixelRatio (graph w)
             /\ with_size (with_shouldRedraw g3 f) W H = with_shouldRedraw g3 f
             /\ _data (with_shouldRedraw g3 f) = _data g3).
  { intros f. subst g3. split.
    - apply normalize_stable.
      destruct (wc || hc); unfold normalized; cbn; exact Hn.
    - destruct (wc || hc); cbn; rewrite Fp; repeat split. }
  assert (Hg3' : _normalizeSelectionBounds g3 = g3
                 /\ _pixelRatio g3 = _pixelRatio (graph w)
                 /\ with_size g3 W H = g3).
  { subst g3. split.
    - apply normalize_stable.
      destruct (wc || hc); unfold normalized; cbn; exact Hn.
    - destruct (wc || hc); cbn; rewrite Fp; repeat split. }
  destruct Hg3' as (N3 & P3 & S3).
  destruct (_data g3) as [data|] eqn:Hd.
  - destruct (_shouldRedraw g3) eqn:Hf; cbn [negb].
    + destruct (Qeq_bool _ 0); [discriminate |].
      destruct (_drawPyramid _ _ _ _ _ _ _ _) as [pyramid t'].
      destruct (_drawTicks _ _ _ _ _) as [ticks|]; [| discriminate].
      intros [= <- _]. unfold _drawWidget.
      cbn [graph metrics options fixedWidth fixedHeight canvas_width canvas_height].
      destruct (Hg3 false) as (N & P & S & D). rewrite N, P. fold W H.
      rewrite S. cbn [with_shouldRedraw _width _height]. 
      replace (_width g3) with W by (subst g3; destruct (wc || hc); reflexivity).
      replace (_height g3) with H by (subst g3; destruct (wc || hc); reflexivity).
      rewrite HcW, HcH. cbn [negb orb]. rewrite D, ?Hd. reflexivity.
    + intros [= <- _]. unfold _drawWidget.
      cbn [graph metrics options fixedWidth fixedHeight canvas_width canvas_height].
      rewrite N3, P3. fold W H. rewrite S3.
      replace (_width g3) with W by (subst g3; destruct (wc || hc); reflexivity).
      replace (_height g3) with H by (subst g3; destruct (wc || hc); reflexivity).
      rewrite HcW, HcH. cbn [negb orb]. rewrite Hd, Hf. reflexivity.
  - intros [= <- _]. unfold _drawWidget.
    cbn [graph metrics options fixedWidth fixedHeight canvas_width canvas_height].
    rewrite N3, P3. fold W H. rewrite S3.
    replace (_width g3) with W by (subst g3; destruct (wc || hc); reflexivity).
    replace (_height g3) with H by (subst g3; destruct (wc || hc); reflexivity).
    rewrite HcW, HcH. cbn [negb orb]. rewrite Hd. reflexivity.
Qed.

End FrameProperties.

Lemma second_frame_draws_nothing_witness :
  exists w' cmds,
    _drawWidget fixedPitch objectPrototype (fun q => q) 20 widget100 (100, 50)
    = Returns (w', cmds)
    /\ _shouldRedraw (graph w') = false
    /\ _drawWidget fixedPitch objectPrototype (fun q => q) 20 w' (100, 50)
       = Returns (w', []).
Proof.
  do 2 eexists.
  assert (H : _drawWidget fixedPitch objectPrototype (fun q => q) 20 widget100 (100, 50)
              = Returns (_, _))
    by (vm_compute; reflexivity).
  split; [exact H |]. split; [reflexivity |].
  eapply (second_frame_draws_nothing fixedPitch objectPrototype (fun q => q)
            20 20 widget100).
  - reflexivity.
  - reflexivity.
  - exact H.
Defined.

(** The first frame of [widget100]: the histogram is told the window, the
    canvas is cleared, the block is filled and labelled, and the ruler gets
    one tick, at column 0. *)
Example first_frame_commands :
  match _drawWidget fixedPitch objectPrototype (fun q => q) 20 widget100 (100, 50) with
  | Returns (_, cmds) =>
      map (fun c => match c with
                    | FillText l _ _ => Some l
                    | _ => None
                    end)
          (List.filter (fun c => match c with FillText _ _ _ => true | _ => false end)
                       cmds)
      = [Some (BlockLabel "abc"); Some (TickLabel (Some 0%Z) "")]
      /\ length (List.filter is_rect cmds) = 1%nat
  | _ => False
  end.
Proof. vm_compute. split; reflexivity. Qed.

Lemma timeAt_rectLeft_witness :
  ~ _width graph100 == 0
  /\ ~ selectionWidth graph100 == 0
  /\ timeAt graph100 (rectLeft graph100 30) == 30 * _pixelRatio graph100.
Proof.
  split; [vm_compute; discriminate |]. split; [vm_compute; discriminate |].
  apply (timeAt_rectLeft graph100 30).
  - vm_compute. discriminate.
  - vm_compute. discriminate.
Defined.
